(** * Proof of A.I. Algorithm (PoAIA): the block-cycle engine

    A shallow embedding of [ai_algo_manager.py] (class [AIAlgoManager]) and
    [ai_algo_engine.py] (class [AIAlgoEngine]), and the properties of the
    block cycle: difficulty swirl, race, reward allocation, credential gate.
    Of [main_gui.py] only what [AsyncEngineThread.stop()] does to the engine
    task is taken in.

    Conventions of the embedding.
    - A Python [float] is an IEEE 754 binary64 number: Rocq's primitive
      [float], whose operations are specified by [SpecFloat].
    - A value drawn from [random] or read from [os.urandom] is an explicit
      argument of the function that draws it, constrained in the theorems by
      the documented range of the drawing function.
    - [log_message] appends to [log_entries]; the wall-clock timestamp of an
      entry and the widget calls are not modelled.  A message is kept as the
      list of the fragments of its f-string, numbers unrendered.
    - A coroutine is cut at its [await]s; what happens while it is suspended
      is an explicit event supplied by the environment: the order in which
      a wait creates its tasks, the operations that end, the solves of
      earlier waits that end, a [stop_engine()], and the [task.cancel] and
      [loop.stop] that [AsyncEngineThread.stop()] schedules after it. *)

From Stdlib Require Import ZArith NArith List String Ascii Bool Lia Floats.
From Stdlib Require Import DecimalString.
Import ListNotations.

#[local] Set Warnings "-inexact-float".
#[local] Open Scope string_scope.

(** ** Python values *)

Module Py.

(** [max(a, b)] on two arguments: the first is kept unless the second is
    strictly greater ([b > a], that is [a < b]). *)
Definition max (a b : float) : float :=
  if (a <? b)%float then b else a.

(** Truth value of a [str]: false exactly for the empty string. *)
Definition str_truthy (s : string) : bool :=
  match s with EmptyString => false | String _ _ => true end.

(** The Python values a race or one of its operations hands back: a
    string, [True]/[False], or [None] when a body ends without [return]. *)
Inductive value :=
| VNone
| VStr (s : string)
| VBool (b : bool).

Definition truthy (v : value) : bool :=
  match v with
  | VNone => false
  | VStr s => str_truthy s
  | VBool b => b
  end.

Definition newline : string := String "010"%char EmptyString.

(** [s[:n]] *)
Definition take (n : nat) (s : string) : string := substring 0 n s.

Fixpoint repeat (c : ascii) (n : nat) : string :=
  match n with O => EmptyString | S k => String c (repeat c k) end.

(** One hexadecimal digit, [d < 16]. *)
Definition hex_digit (upper : bool) (d : N) : ascii :=
  match d with
  | 0 => "0" | 1 => "1" | 2 => "2" | 3 => "3" | 4 => "4"
  | 5 => "5" | 6 => "6" | 7 => "7" | 8 => "8" | 9 => "9"
  | 10 => if upper then "A" else "a"
  | 11 => if upper then "B" else "b"
  | 12 => if upper then "C" else "c"
  | 13 => if upper then "D" else "d"
  | 14 => if upper then "E" else "e"
  | _ => if upper then "F" else "f"
  end%N%char.

(** Digits of [n] in base 16, most significant first, in front of [acc]. *)
Fixpoint hex_digits (fuel : nat) (upper : bool) (n : N) (acc : string) : string :=
  match fuel with
  | O => acc
  | S fuel' =>
      let acc' := String (hex_digit upper (n mod 16)) acc in
      if (n / 16 =? 0)%N then acc' else hex_digits fuel' upper (n / 16) acc'
  end.

(** [format(n, "x")] and [format(n, "X")]. *)
Definition format_hex (upper : bool) (n : N) : string :=
  hex_digits (S (N.to_nat (N.log2 n))) upper n EmptyString.

(** Zero fill on the left up to a minimum width. *)
Definition zero_fill (width : nat) (s : string) : string :=
  repeat "0"%char (width - String.length s) ++ s.

(** [f"{n:064x}"] *)
Definition format_064x (n : N) : string := zero_fill 64 (format_hex false n).

(** [f"{n:X}"] *)
Definition format_X (n : N) : string := format_hex true n.

Definition is_lower_hex (c : ascii) : bool :=
  let k := nat_of_ascii c in
  ((48 <=? k) && (k <=? 57) || (97 <=? k) && (k <=? 102))%nat.

Fixpoint string_forallb (p : ascii -> bool) (s : string) : bool :=
  match s with
  | EmptyString => true
  | String c s' => p c && string_forallb p s'
  end.

End Py.

(** ** The event sink *)

Inductive color := teal | red | gold.

(** A fragment of an f-string: literal text or a replacement field. *)
Inductive fragment :=
| Lit (text : string)
| Str (s : string)                       (* {s} *)
| Int (n : Z)                            (* {n} *)
| Flt (x : float)                        (* {x} *)
| Fixed (digits : nat) (x : float)       (* {x:.2f}, {x:.4f} *)
| SignedFixed (digits : nat) (x : float) (* {x:+.2f} *)
| BinOfHex (s : string)                  (* {bin(int(s, 16))[:10]} *)
| Now.                                   (* {timestamp} *)

Definition message := list fragment.

Record log_entry := { entry_message : message; entry_color : color }.

(** ** ai_algo_manager.py *)

Module AIAlgoManager.

Definition BLOCK_REWARD : float := 5.0.
Definition REWARD_SYMBOL : string := "%AIA%".
Definition BLOCK_TIME_SECONDS : Z := 5.
Definition LUCK_FACTOR_MAX : float := 0.15.

Record t := {
  api_key : string;
  log_entries : list log_entry;
  is_running : bool;
  block_height : Z;
  peer_count : Z;
  wallet_address : string;
  balance : float;
  current_difficulty : float;
  last_block_hash : string;
  competing_nodes : list (string * float);
  node_id : string;
}.

(** [__init__], given the draws for the wallet address and the node id. *)
Definition init (address_bytes : N) (node_number : Z) : t :=
  let node_id := "AIAlgoNode-" ++ NilZero.string_of_int (Z.to_int node_number) in {|
  api_key := "";
  log_entries :=
    [ {| entry_message := [Lit "Node ID: "; Str node_id; Lit " initialized."];
         entry_color := teal |} ];
  is_running := false;
  block_height := 12345;
  peer_count := 12;
  wallet_address := "AIA-QTL-" ++ Py.zero_fill 16 (Py.format_hex true address_bytes);
  balance := 0.0;
  current_difficulty := 0.0;
  last_block_hash := "0x00000000000000000000000000000000";
  competing_nodes := [];
  node_id := node_id;
|}.

Definition log_message (msg : message) (c : color) (m : t) : t := {|
  api_key := m.(api_key);
  log_entries := m.(log_entries) ++ [ {| entry_message := msg; entry_color := c |} ];
  is_running := m.(is_running);
  block_height := m.(block_height);
  peer_count := m.(peer_count);
  wallet_address := m.(wallet_address);
  balance := m.(balance);
  current_difficulty := m.(current_difficulty);
  last_block_hash := m.(last_block_hash);
  competing_nodes := m.(competing_nodes);
  node_id := m.(node_id);
|}.

Definition with_api_key (key : string) (m : t) : t := {|
  api_key := key;
  log_entries := m.(log_entries);
  is_running := m.(is_running);
  block_height := m.(block_height);
  peer_count := m.(peer_count);
  wallet_address := m.(wallet_address);
  balance := m.(balance);
  current_difficulty := m.(current_difficulty);
  last_block_hash := m.(last_block_hash);
  competing_nodes := m.(competing_nodes);
  node_id := m.(node_id);
|}.

Definition with_is_running (b : bool) (m : t) : t := {|
  api_key := m.(api_key);
  log_entries := m.(log_entries);
  is_running := b;
  block_height := m.(block_height);
  peer_count := m.(peer_count);
  wallet_address := m.(wallet_address);
  balance := m.(balance);
  current_difficulty := m.(current_difficulty);
  last_block_hash := m.(last_block_hash);
  competing_nodes := m.(competing_nodes);
  node_id := m.(node_id);
|}.

Definition with_peer_count (n : Z) (m : t) : t := {|
  api_key := m.(api_key);
  log_entries := m.(log_entries);
  is_running := m.(is_running);
  block_height := m.(block_height);
  peer_count := n;
  wallet_address := m.(wallet_address);
  balance := m.(balance);
  current_difficulty := m.(current_difficulty);
  last_block_hash := m.(last_block_hash);
  competing_nodes := m.(competing_nodes);
  node_id := m.(node_id);
|}.

(** The four assignments of [distribute_reward], in one record. *)
Definition mint (new_balance : float) (new_height : Z) (difficulty : float)
    (hash : string) (m : t) : t := {|
  api_key := m.(api_key);
  log_entries := m.(log_entries);
  is_running := m.(is_running);
  block_height := new_height;
  peer_count := m.(peer_count);
  wallet_address := m.(wallet_address);
  balance := new_balance;
  current_difficulty := difficulty;
  last_block_hash := hash;
  competing_nodes := m.(competing_nodes);
  node_id := m.(node_id);
|}.

(** [set_api_key(key)]: the returned boolean and the manager afterwards. *)
Definition set_api_key (key : string) (m : t) : bool * t :=
  if negb (Py.str_truthy key) then
    (false, log_message [Lit "ERROR: API Key field is empty."] red m)
  else
    let m := with_api_key key m in
    (true, log_message [Lit "AI API Key Loaded. Client ready for block solving."] teal m).

(** [solve_block_encryption], up to its [await asyncio.sleep(latency)]:
    [jitter] is [random.uniform(1, 3)]. *)
Definition solve_block_encryption_start (current_difficulty : float)
    (jitter : float) (m : t) : float * t :=
  let m := log_message
             [Lit "Starting AI block resolution (Diff: "; Fixed 2 current_difficulty; Lit ")..."]
             gold m in
  let latency := (current_difficulty / 100 + jitter)%float in
  (latency, m).

(** [solve_block_encryption], after the sleep: [bits] is
    [random.getrandbits(64)]. *)
Definition solve_block_encryption_finish (bits : N) (m : t) : string * t :=
  let ai_proof := "AI_Solution_Proof_" ++ Py.format_X bits in
  let m := log_message
             [Lit "AI Proof of Solution received: "; Str (Py.take 20 ai_proof); Lit "..."]
             teal m in
  (ai_proof, m).

Definition _stamp_block_metadata (reward_amount : float) (m : t) : t :=
  let hex_data := Py.take 10 m.(last_block_hash) in
  let m := log_message
             [Lit "Stamped Metadata: Time="; Now; Lit ", Bit="; BinOfHex m.(last_block_hash);
              Lit ", Hex="; Str hex_data]
             teal m in
  log_message
    [Lit "File Reference: "; Lit "Ref-"; Int m.(block_height); Lit "-"; Now; Lit ".mccos";
     Lit " (Simulated File Stamping)"]
    teal m.

(** [distribute_reward(winner_node_id, difficulty)]: [luck_modifier] is
    [random.uniform(-LUCK_FACTOR_MAX, LUCK_FACTOR_MAX)] and [hash_bits] is
    [random.getrandbits(256)]. *)
Definition final_reward (luck_modifier : float) : float :=
  (BLOCK_REWARD * (1 + luck_modifier))%float.

Definition new_block_hash (hash_bits : N) : string :=
  "0x" ++ Py.format_064x hash_bits.

Definition distribute_reward (winner_node_id : string) (difficulty : float)
    (luck_modifier : float) (hash_bits : N) (m : t) : t :=
  let base_reward_amount := BLOCK_REWARD in
  let final_reward := (base_reward_amount * (1 + luck_modifier))%float in
  let m := mint (m.(balance) + final_reward)%float (m.(block_height) + 1)%Z
                difficulty (new_block_hash hash_bits) m in
  let m := log_message [Lit "*** BLOCK MINTED: #"; Int m.(block_height); Lit " ***"] teal m in
  let m := log_message
             [Lit "Node: "; Str winner_node_id; Lit " won with Difficulty: "; Fixed 2 difficulty]
             gold m in
  let m := log_message
             [Lit "Base Reward: "; Flt base_reward_amount; Lit " "; Str REWARD_SYMBOL;
              Lit " | Luck Modifier: "; SignedFixed 2 luck_modifier;
              Lit " ("; Str REWARD_SYMBOL; Lit ")"]
             gold m in
  let m := log_message
             [Lit "Final Reward Allocated: "; Fixed 4 final_reward; Lit " "; Str REWARD_SYMBOL;
              Lit ". New Balance: "; Fixed 2 m.(balance); Lit " "; Str REWARD_SYMBOL]
             teal m in
  _stamp_block_metadata final_reward m.

(** [start_algorithm()] *)
Definition start_algorithm (m : t) : bool * t :=
  if negb (Py.str_truthy m.(api_key)) then
    (false, log_message [Lit "ERROR: Cannot start. No API Key loaded."] red m)
  else if m.(is_running) then
    (true, log_message [Lit "Algorithm is already running."] gold m)
  else
    let m := with_is_running true m in
    (true, log_message
             [Lit "*** A.I. ALGORITHM STARTED: Competing for Block Reward ***"] teal m).

(** [stop_algorithm()] *)
Definition stop_algorithm (m : t) : bool * t :=
  if m.(is_running) then
    let m := with_is_running false m in
    (true, log_message [Lit "Algorithm manually STOPPED."] teal m)
  else (false, m).

End AIAlgoManager.

(** ** The part of asyncio the engine relies on *)

Module Asyncio.

(** [asyncio.wait] changed between releases. Up to Python 3.10 it wraps a
    coroutine object it is given in a new [Task] ([ensure_future]) and
    returns those tasks in [(done, pending)]; the library's documentation
    warns that a test [coro in done] is therefore never true. From Python
    3.11 on it raises [TypeError] when given a coroutine object. *)
Inductive version :=
| wraps_coroutines     (* Python 3.10 and earlier *)
| rejects_coroutines.  (* Python 3.11 and later *)

(** The two competing operations of a race. *)
Inductive operation := our_attempt | p2p_check.

(** The objects the engine holds or is handed: the coroutine object made
    by calling an [async def], the [Task] that runs such a coroutine, and
    the task running [start_engine]. Distinct constructors are distinct
    objects. *)
Inductive handle :=
| coroutine_of (op : operation)
| task_of (op : operation)
| engine_task.

Definition operation_eqb (a b : operation) : bool :=
  match a, b with
  | our_attempt, our_attempt | p2p_check, p2p_check => true
  | _, _ => false
  end.

(** Object identity, which is what [in] on a set of tasks tests. *)
Definition handle_eqb (a b : handle) : bool :=
  match a, b with
  | coroutine_of x, coroutine_of y => operation_eqb x y
  | task_of x, task_of y => operation_eqb x y
  | engine_task, engine_task => true
  | _, _ => false
  end.

Definition mem (h : handle) (hs : list handle) : bool := existsb (handle_eqb h) hs.

Definition iscoroutine (h : handle) : bool :=
  match h with coroutine_of _ => true | _ => false end.

Definition ensure_future (h : handle) : handle :=
  match h with coroutine_of op => task_of op | _ => h end.

Inductive exn :=
| CancelledError
| TypeError (msg : string)
| AttributeError (msg : string)
| InvalidStateError (msg : string)
| Failure (msg : string).   (* an exception raised inside an operation *)

(** [except Exception] does not catch [CancelledError]. *)
Definition is_Exception (e : exn) : bool :=
  match e with CancelledError => false | _ => true end.

Definition exn_text (e : exn) : string :=
  match e with
  | CancelledError => ""
  | TypeError s | AttributeError s | InvalidStateError s | Failure s => s
  end.

(** [set(fs)] iterates in an order fixed by the hashes of its elements,
    which for coroutine objects are their addresses, not by the order of the
    list [fs]. For the two elements the engine passes there are two orders:
    that of the list, or the reverse. *)
Definition set_iteration {A} (reversed : bool) (fs : list A) : list A :=
  if reversed then rev fs else fs.

(** How an operation that ran to its end ended. *)
Inductive ending := returned | raised (msg : string).

(** The tasks that are done when a [FIRST_COMPLETED] wait wakes up. *)
Inductive first_completed :=
| solve_first (e : ending)
| consensus_first (e : ending)
| both_done (solve_end consensus_end : ending).

Definition ending_of (fc : first_completed) (op : operation) : option ending :=
  match fc, op with
  | solve_first e, our_attempt => Some e
  | consensus_first e, p2p_check => Some e
  | both_done e _, our_attempt => Some e
  | both_done _ e, p2p_check => Some e
  | _, _ => None
  end.

Definition is_done (fc : first_completed) (h : handle) : bool :=
  match h with
  | task_of op => match ending_of fc op with Some _ => true | None => false end
  | _ => false
  end.

(** A call into asyncio made by the engine's code, in program order. *)
Inductive call :=
| Wait (aws : list handle)
| Sleep (seconds : Z)
| Cancel (h : handle).

End Asyncio.

(** ** ai_algo_engine.py *)

Module AIAlgoEngine.
Import Asyncio.

Definition BASE_DIFFICULTY : float := 100.0.
Definition DIFFICULTY_SWIRL_RANGE : float := 50.0.
Definition MAX_PEERS : Z := 30.
Definition MIN_PEERS : Z := 10.

(** The engine together with the manager it refers to and what the event
    loop holds for it. [cancel_pending] is the cancellation request
    [Task.cancel] leaves on the engine task until [CancelledError] is thrown
    into it at its [await]; [calls] is the record of the asyncio calls made
    by the engine's code so far, oldest first; [solving] counts the
    [solve_block_encryption] tasks that a wait has created and that have not
    ended: nothing cancels them, so the loop keeps running them after the
    wait that created them is over. *)
Record t := {
  manager : AIAlgoManager.t;
  running : bool;
  task : bool;               (* [self.task] is set *)
  cancel_pending : bool;
  calls : list call;
  solving : nat;
}.

Definition with_manager (m : AIAlgoManager.t) (w : t) : t :=
  {| manager := m; running := w.(running); task := w.(task);
     cancel_pending := w.(cancel_pending); calls := w.(calls);
     solving := w.(solving) |}.

Definition with_running (b : bool) (w : t) : t :=
  {| manager := w.(manager); running := b; task := w.(task);
     cancel_pending := w.(cancel_pending); calls := w.(calls);
     solving := w.(solving) |}.

Definition with_cancel_pending (b : bool) (w : t) : t :=
  {| manager := w.(manager); running := w.(running); task := w.(task);
     cancel_pending := b; calls := w.(calls); solving := w.(solving) |}.

Definition record_call (c : call) (w : t) : t :=
  {| manager := w.(manager); running := w.(running); task := w.(task);
     cancel_pending := w.(cancel_pending); calls := w.(calls) ++ [c];
     solving := w.(solving) |}.

Definition with_solving (n : nat) (w : t) : t :=
  {| manager := w.(manager); running := w.(running); task := w.(task);
     cancel_pending := w.(cancel_pending); calls := w.(calls); solving := n |}.

(** [AIAlgoEngine(manager)], [task] as the caller leaves it. *)
Definition init (m : AIAlgoManager.t) (task_set : bool) : t :=
  {| manager := m; running := false; task := task_set;
     cancel_pending := false; calls := []; solving := 0 |}.

(** *** Code that may raise and be suspended *)

Inductive outcome (A : Type) :=
| Ok (a : A)          (* ran to the end *)
| Raise (e : exn)     (* an exception left the code *)
| Suspended.          (* still at an [await]: no further event supplied,
                         or the event loop has been stopped *)
Arguments Ok {A} a.
Arguments Raise {A} e.
Arguments Suspended {A}.

Definition M (A : Type) : Type := t -> outcome A * t.

Definition ret {A} (a : A) : M A := fun w => (Ok a, w).
Definition raise {A} (e : exn) : M A := fun w => (Raise e, w).
Definition bind {A B} (c : M A) (k : A -> M B) : M B :=
  fun w =>
    match c w with
    | (Ok a, w') => k a w'
    | (Raise e, w') => (Raise e, w')
    | (Suspended, w') => (Suspended, w')
    end.

Notation "x <- c ;; k" := (bind c (fun x => k))
  (at level 61, c at next level, right associativity).
Notation "c ;; k" := (bind c (fun _ => k))
  (at level 61, right associativity).

(** [try: body / except CancelledError: h1 / except Exception as e: h2 e] *)
Definition try_except {A} (body : M A) (on_cancelled : M A)
    (on_exception : exn -> M A) : M A :=
  fun w =>
    match body w with
    | (Raise CancelledError, w') => on_cancelled w'
    | (Raise e, w') => if is_Exception e then on_exception e w' else (Raise e, w')
    | r => r
    end.

Definition get_manager : M AIAlgoManager.t := fun w => (Ok w.(manager), w).
Definition get_running : M bool := fun w => (Ok w.(running), w).
Definition get_solving : M nat := fun w => (Ok w.(solving), w).

(** [self.manager.log_message(msg, color=c)] *)
Definition log (msg : message) (c : color) : M unit :=
  fun w => (Ok tt, with_manager (AIAlgoManager.log_message msg c w.(manager)) w).

Definition on_manager (f : AIAlgoManager.t -> AIAlgoManager.t) : M unit :=
  fun w => (Ok tt, with_manager (f w.(manager)) w).

(** *** Methods without [await] *)

(** [_calculate_dynamic_difficulty()]: [random_factor] is
    [random.uniform(-DIFFICULTY_SWIRL_RANGE, DIFFICULTY_SWIRL_RANGE)]. *)
Definition _calculate_dynamic_difficulty (random_factor : float)
    (m : AIAlgoManager.t) : float :=
  let current :=
    if (0 <? m.(AIAlgoManager.current_difficulty))%float
    then m.(AIAlgoManager.current_difficulty) else BASE_DIFFICULTY in
  let difficulty := (current + random_factor)%float in
  Py.max difficulty 50.0.

(** [_update_peer_count()]: [drawn] is [random.randint(MIN_PEERS, MAX_PEERS)]. *)
Definition _update_peer_count (drawn : Z) : M unit :=
  on_manager (AIAlgoManager.with_peer_count drawn).

(** [stop_engine()] *)
Definition stop_engine (w : t) : t :=
  if w.(running) then
    let w := with_running false w in
    let w := with_manager
               (AIAlgoManager.log_message
                  [Lit "Async AI Engine received STOP command."] red w.(manager)) w in
    if w.(task) then with_cancel_pending true (record_call (Cancel engine_task) w)
    else w
  else w.

(** [_simulate_p2p_consensus], up to its [await]: [jitter] is
    [random.uniform(0.5, 2.0)]. *)
Definition _simulate_p2p_consensus_start (difficulty jitter : float)
    (m : AIAlgoManager.t) : float * AIAlgoManager.t :=
  let simulated_network_latency := (difficulty / 150 + jitter)%float in
  (simulated_network_latency,
   AIAlgoManager.log_message
     [Lit "P2P Monitor running (Latency check: "; Fixed 2 simulated_network_latency; Lit "s)..."]
     teal m).

(** *** Suspension points *)

(** What the environment supplies for one block cycle: the draws, in
    program order, and what happens while the engine task is suspended. *)
Record cycle_events := {
  swirl : float;             (* random.uniform(-50.0, 50.0) *)
  peers : Z;                 (* random.randint(10, 30) *)
  solve_jitter : float;      (* random.uniform(1, 3) *)
  p2p_jitter : float;        (* random.uniform(0.5, 2.0) *)
  proof_bits : N;            (* random.getrandbits(64) *)
  finished : first_completed;(* the tasks done when the wait wakes up *)
  stop_in_race : bool;       (* stop_engine() is called during the wait *)
  luck : float;              (* random.uniform(-0.15, 0.15) *)
  hash_bits : N;             (* random.getrandbits(256) *)
  stop_in_sleep : bool;      (* stop_engine() is called during the sleep *)
  set_reversed : bool;       (* set(fs) in the wait iterates the consensus
                                check before the solve *)
  late_in_race : list N;     (* random.getrandbits(64) of the solves of
                                earlier waits that end during this wait *)
  late_in_sleep : list N;    (* the same, of the solves that end during
                                the sleep *)
  stop_by_thread : bool;     (* the stop_engine() of this cycle is the one
                                called by AsyncEngineThread.stop(), which goes
                                on to schedule task.cancel and loop.stop on
                                the event loop *)
}.

(** The engine task is suspended and resumed. If [stop_engine()] was called
    meanwhile it has run; a pending cancellation request is delivered as
    [CancelledError] at the [await], which consumes it. *)
Definition suspend (stop : bool) : M unit :=
  fun w =>
    let w := if stop then stop_engine w else w in
    if w.(cancel_pending) then (Raise CancelledError, with_cancel_pending false w)
    else (Ok tt, w).

(** Solves that earlier waits left running end while the engine task is
    suspended: each logs its proof, as [solve_block_encryption] does after
    its sleep. [earlier] bounds how many there are. *)
Definition late_proofs (proofs : list N) (m : AIAlgoManager.t) : AIAlgoManager.t :=
  fold_left (fun m bits => snd (AIAlgoManager.solve_block_encryption_finish bits m))
            proofs m.

Definition orphans_end (earlier : nat) (late : list N) : M unit :=
  fun w =>
    let ended := firstn earlier late in
    (Ok tt, with_solving (w.(solving) - List.length ended)
              (with_manager (late_proofs ended w.(manager)) w)).

(** [await asyncio.sleep(seconds)]: solves left running may end, and
    [stop_engine()] may be called, before the task is resumed.

    [follow_up] is for the caller of [main_gui.py], [AsyncEngineThread.stop()]:
    after [self.engine.stop_engine()] it runs
    [if self.engine.task and not self.engine.task.done():
       self.loop.call_soon_threadsafe(self.engine.task.cancel)] and
    [self.loop.call_soon_threadsafe(self.loop.stop)]. The two callbacks are
    queued behind the step that the cancellation by [stop_engine()] has made
    ready. When that stop came during the wait ([running] is false here), the
    step takes the task, which [AsyncEngineThread.run()] has stored in
    [self.task], from the wait to this sleep; the callbacks then cancel it a
    second time and stop the loop, which does not resume it. When the stop
    comes during the sleep itself the step ends the task, and the callbacks
    change nothing for it. *)
Definition sleep (seconds : Z) (late : list N) (stop follow_up : bool) : M unit :=
  (fun w => (Ok tt, record_call (Sleep seconds) w)) ;;
  fun w =>
    if follow_up && negb w.(running) && w.(task) then
      (Suspended, with_cancel_pending true w)
    else
      (earlier <- get_solving ;;
       orphans_end earlier late ;;
       suspend stop) w.

(** One operation takes its first step as a task: it runs up to its
    [await asyncio.sleep(...)]. *)
Definition operation_begins (difficulty : float) (ev : cycle_events)
    (h : handle) : M unit :=
  match h with
  | task_of our_attempt =>
      on_manager (fun m => snd (AIAlgoManager.solve_block_encryption_start
                                  difficulty ev.(solve_jitter) m)) ;;
      (fun w => (Ok tt, with_solving (S w.(solving)) w))
  | task_of p2p_check =>
      on_manager (fun m => snd (_simulate_p2p_consensus_start difficulty ev.(p2p_jitter) m))
  | _ => ret tt
  end.

(** What the operations do once their tasks exist and the engine task is
    suspended: they begin, in the order in which the tasks were created. *)
Fixpoint operations_begin (difficulty : float) (ev : cycle_events)
    (tasks : list handle) : M unit :=
  match tasks with
  | [] => ret tt
  | h :: rest => operation_begins difficulty ev h ;; operations_begin difficulty ev rest
  end.

(** The local solve, if it has ended when the engine task is resumed, has
    logged its proof unless it raised. An operation that has not ended is
    left running. *)
Definition operations_end (ev : cycle_events) (tasks : list handle) : M unit :=
  if mem (task_of our_attempt) tasks then
    match ending_of ev.(finished) our_attempt with
    | Some returned =>
        on_manager (fun m => snd (AIAlgoManager.solve_block_encryption_finish
                                    ev.(proof_bits) m)) ;;
        (fun w => (Ok tt, with_solving (pred w.(solving)) w))
    | Some (raised _) => (fun w => (Ok tt, with_solving (pred w.(solving)) w))
    | None => ret tt
    end
  else ret tt.

(** The wait on tasks that exist: they begin, solves of earlier waits may
    end, and the engine task is resumed when one of [tasks] is done. *)
Definition wait_for (tasks : list handle) (difficulty : float)
    (ev : cycle_events) : M (list handle * list handle) :=
  earlier <- get_solving ;;
  operations_begin difficulty ev tasks ;;
  orphans_end earlier ev.(late_in_race) ;;
  suspend ev.(stop_in_race) ;;
  operations_end ev tasks ;;
  ret (filter (is_done ev.(finished)) tasks,
       filter (fun h => negb (is_done ev.(finished) h)) tasks).

(** [await asyncio.wait(fs, return_when=asyncio.FIRST_COMPLETED)], as the
    release [v] of the library behaves; the result is [(done, pending)]. Up
    to Python 3.10 the tasks are created from [set(fs)], in the order in
    which that set iterates. *)
Definition wait (v : version) (fs : list handle) (difficulty : float)
    (ev : cycle_events) : M (list handle * list handle) :=
  (fun w => (Ok tt, record_call (Wait fs) w)) ;;
  match v with
  | rejects_coroutines =>
      if existsb iscoroutine fs then
        raise (TypeError "Passing coroutines is forbidden, use tasks explicitly.")
      else wait_for fs difficulty ev
  | wraps_coroutines =>
      wait_for (map ensure_future (set_iteration ev.(set_reversed) fs)) difficulty ev
  end.

(** [h.result()] *)
Definition result (h : handle) (ev : cycle_events) : M Py.value :=
  match h with
  | coroutine_of _ =>
      raise (AttributeError "'coroutine' object has no attribute 'result'")
  | task_of op =>
      match ending_of ev.(finished) op, op with
      | Some returned, our_attempt =>
          ret (Py.VStr ("AI_Solution_Proof_" ++ Py.format_X ev.(proof_bits)))
      | Some returned, p2p_check => ret (Py.VBool true)
      | Some (raised msg), _ => raise (Failure msg)
      | None, _ => raise (InvalidStateError "Result is not set.")
      end
  | engine_task => raise (InvalidStateError "Result is not set.")
  end.

(** *** The race and the scheduler loop *)

(** [_run_ai_competition(difficulty)] *)
Definition _run_ai_competition (v : version) (difficulty : float)
    (ev : cycle_events) : M Py.value :=
  try_except
    (let our_attempt_task := coroutine_of our_attempt in
     let p2p_check_task := coroutine_of p2p_check in
     done_pending <- wait v [our_attempt_task; p2p_check_task] difficulty ev ;;
     let results := fst done_pending in
     if mem our_attempt_task results then
       log [Lit "LOCAL AI WIN: Proof of Algorithm achieved first!"] teal ;;
       result our_attempt_task ev
     else if mem p2p_check_task results then
       log [Lit "NETWORK LOSS: Another peer minted the block first."] red ;;
       ret (Py.VStr "")
     else ret Py.VNone)
    (log [Lit "AI Competition cancelled due to engine stop."] red ;;
     ret (Py.VStr ""))
    (fun e =>
       log [Lit "Critical Competition Error: "; Str (exn_text e)] red ;;
       ret (Py.VStr "")).

(** Step 3 of the loop body: the reward gate. *)
Definition process_result (winning_proof : Py.value) (difficulty : float)
    (ev : cycle_events) : M unit :=
  running <- get_running ;;
  if Py.truthy winning_proof && running then
    m <- get_manager ;;
    on_manager (AIAlgoManager.distribute_reward m.(AIAlgoManager.node_id) difficulty
                  ev.(luck) ev.(hash_bits))
  else
    log [Lit "Block solving failed or engine stopped."] red.

(** The body of [while self.running], up to its last statement. *)
Definition cycle_body (v : version) (ev : cycle_events) : M unit :=
  m <- get_manager ;;
  let difficulty := _calculate_dynamic_difficulty ev.(swirl) m in
  _update_peer_count ev.(peers) ;;
  m <- get_manager ;;
  log [Lit Py.newline; Lit "[CYCLE START] New Block Cycle #";
       Int (m.(AIAlgoManager.block_height) + 1); Lit " initiated."] gold ;;
  log [Lit "Difficulty set to: "; Fixed 2 difficulty] gold ;;
  winning_proof <- _run_ai_competition v difficulty ev ;;
  process_result winning_proof difficulty ev ;;
  log [Lit Py.newline; Lit "Block cycle complete. Waiting ";
       Int AIAlgoManager.BLOCK_TIME_SECONDS; Lit "s for next mint..."] gold.

(** One pass through the body of [while self.running]. *)
Definition cycle (v : version) (ev : cycle_events) : M unit :=
  cycle_body v ev ;;
  sleep AIAlgoManager.BLOCK_TIME_SECONDS ev.(late_in_sleep) ev.(stop_in_sleep)
        ev.(stop_by_thread).

(** [while self.running: ...], one element of [evs] per pass. *)
Fixpoint loop (v : version) (evs : list cycle_events) : M unit :=
  fun w =>
    if w.(running) then
      match evs with
      | [] => (Suspended, w)
      | ev :: evs' => (cycle v ev ;; loop v evs') w
      end
    else (Ok tt, w).

(** [start_engine()] *)
Definition start_engine (v : version) (evs : list cycle_events) : M unit :=
  (fun w => (Ok tt, with_running true w)) ;;
  log [Lit "Async AI Engine started at: "; Now] teal ;;
  loop v evs.

End AIAlgoEngine.

(** ** Binary64 arithmetic

    The vocabulary in which the rounding of [SpecFloat] is described: the
    operations of a primitive [float] are those of [SpecFloat] at precision
    53 and maximal exponent 1024. *)

Module Binary64.
Local Open Scope Z_scope.

(** [m / 2 ^ n] rounded to the nearest integer, ties to even. *)
Definition rne (m n : Z) : Z :=
  let q := m / 2 ^ n in
  match 2 * (m mod 2 ^ n) ?= 2 ^ n with
  | Lt => q
  | Gt => q + 1
  | Eq => if Z.even q then q else q + 1
  end.

(** What [SpecFloat.shr] maintains while it shifts [m] to the right: the
    quotient by [P], and two bits that place the remainder with respect to
    [P / 2]. *)
Definition shr_inv (m P : Z) (mrs : shr_record) : Prop :=
  0 <= shr_m mrs
  /\ exists rho,
       m = shr_m mrs * P + rho
       /\ 0 <= rho < P
       /\ (shr_r mrs = true <-> P <= 2 * rho)
       /\ (shr_s mrs = true <-> 2 * rho <> 0 /\ 2 * rho <> P).

(** The exponent of the numbers of magnitude [2 ^ k]. *)
Definition fexp64 (k : Z) : Z := Z.max (k - 53) (-1074).

(** The float of mantissa [q] and exponent [c], infinite beyond the largest
    exponent. *)
Definition pack (s : bool) (q c : Z) : spec_float :=
  match q with
  | Z0 => S754_zero s
  | Zpos p => if c <=? 971 then S754_finite s p c else S754_infinity s
  | Zneg _ => S754_nan
  end.

(** A mantissa that rounding has carried to [2 ^ 53] moves to the next
    exponent. *)
Definition renorm (s : bool) (q c : Z) : spec_float :=
  if q =? 2 ^ 53 then pack s (2 ^ 52) (c + 1) else pack s q c.

(** The float nearest to [m * 2 ^ e], for [0 < m]. *)
Definition nearest (s : bool) (m e : Z) : spec_float :=
  let c := fexp64 (Zdigits2 m + e) in
  renorm s (rne m (c - e)) c.

(** The value of a finite float in units of [2 ^ -1074]. *)
Definition scaled (x : spec_float) : Z :=
  match x with
  | S754_finite s m e => cond_Zopp s (Z.pos m * 2 ^ (e + 1074))
  | _ => 0
  end.

Definition SF_finite (x : spec_float) : bool :=
  match x with
  | S754_finite _ _ _ | S754_zero _ => true
  | _ => false
  end.

(** A float that is neither NaN nor infinite. *)
Definition finite (x : float) : Prop := SF_finite (Prim2SF x) = true.

End Binary64.

(** ** Vocabulary of the properties *)

Module Ledger.
Import AIAlgoEngine.

(** The fields a mint writes are the same in [w'] as in [w]. *)
Definition same (w w' : t) : Prop :=
  AIAlgoManager.block_height (manager w') = AIAlgoManager.block_height (manager w)
  /\ AIAlgoManager.balance (manager w') = AIAlgoManager.balance (manager w)
  /\ AIAlgoManager.current_difficulty (manager w')
     = AIAlgoManager.current_difficulty (manager w)
  /\ AIAlgoManager.last_block_hash (manager w') = AIAlgoManager.last_block_hash (manager w).

(** [c] leaves the ledger as it finds it, and a value it returns satisfies [P]. *)
Definition keeps {A} (c : M A) (P : A -> Prop) : Prop :=
  forall w, same w (snd (c w)) /\ (forall a, fst (c w) = Ok a -> P a).

(** A cycle in which the peer consensus alone is done when the wait wakes
    up, and nobody stops the engine meanwhile. *)
Definition loss_cycle (ev : cycle_events) : Prop :=
  (exists e, finished ev = Asyncio.consensus_first e) /\ stop_in_race ev = false.

End Ledger.

(** ** Concrete runs *)

Module Run.
Import Asyncio AIAlgoEngine.

(** A freshly constructed node whose engine task has been created. *)
Definition node : t := init (AIAlgoManager.init 255 1234) true.

(** The draws of one cycle; the wait finds [fc] done, and [stop] tells
    whether [stop_engine()] is called during the wait. *)
Definition events (fc : first_completed) (stop : bool) : cycle_events := {|
  swirl := 10.0;
  peers := 17;
  solve_jitter := 1.5;
  p2p_jitter := 2.0;
  proof_bits := 255;
  finished := fc;
  stop_in_race := stop;
  luck := 0.1;
  hash_bits := 12345;
  stop_in_sleep := false;
  set_reversed := false;
  late_in_race := [];
  late_in_sleep := [];
  stop_by_thread := false;
|}.

(** The node once [start_engine] has set [running]. *)
Definition started : t := with_running true node.

Definition the_wait : call := Wait [coroutine_of our_attempt; coroutine_of p2p_check].





(** A cycle in which an operation raises, the set of the wait iterating in
    either order. *)
Definition failing (fc : first_completed) (reversed : bool) : cycle_events := {|
  swirl := 10.0;
  peers := 17;
  solve_jitter := 1.5;
  p2p_jitter := 2.0;
  proof_bits := 255;
  finished := fc;
  stop_in_race := false;
  luck := 0.1;
  hash_bits := 12345;
  stop_in_sleep := false;
  set_reversed := reversed;
  late_in_race := [];
  late_in_sleep := [];
  stop_by_thread := false;
|}.

End Run.

(** ** The entries of the log, written out *)

Module Note.

Definition solve_started (difficulty : float) : log_entry := {|
  entry_message := [Lit "Starting AI block resolution (Diff: "; Fixed 2 difficulty;
                    Lit ")..."];
  entry_color := gold |}.

Definition consensus_started (latency : float) : log_entry := {|
  entry_message := [Lit "P2P Monitor running (Latency check: "; Fixed 2 latency;
                    Lit "s)..."];
  entry_color := teal |}.

(** The entries of the two operations' first steps, in the order in which
    the tasks were created. *)
Definition started (reversed : bool) (difficulty p2p_jitter : float) : list log_entry :=
  if reversed
  then [consensus_started (difficulty / 150 + p2p_jitter)%float; solve_started difficulty]
  else [solve_started difficulty; consensus_started (difficulty / 150 + p2p_jitter)%float].

Definition proof_received (bits : N) : log_entry := {|
  entry_message := [Lit "AI Proof of Solution received: ";
                    Str (Py.take 20 ("AI_Solution_Proof_" ++ Py.format_X bits));
                    Lit "..."];
  entry_color := teal |}.

Definition competition_error (text : string) : log_entry := {|
  entry_message := [Lit "Critical Competition Error: "; Str text];
  entry_color := red |}.

End Note.

(** ** The rest of the manager, and its callers *)

Module PyInt.

(** The value of a hexadecimal digit, in either case. *)
Definition hex_value (c : ascii) : option N :=
  let k := N_of_ascii c in
  if ((48 <=? k) && (k <=? 57))%N then Some (k - 48)%N
  else if ((97 <=? k) && (k <=? 102))%N then Some (k - 87)%N
  else if ((65 <=? k) && (k <=? 70))%N then Some (k - 55)%N
  else None.

(** The number written by the digits of [s], after [acc]. *)
Fixpoint digits_value (acc : N) (s : string) : option N :=
  match s with
  | EmptyString => Some acc
  | String c s' =>
      match hex_value c with
      | Some d => digits_value (16 * acc + d)%N s'
      | None => None
      end
  end.

(** [int(s, 16)] on a literal made of an optional [0x] and hexadecimal
    digits, which is what the manager passes; [None] is any other string
    (signs, blanks and underscores, which [int] also reads, do not occur). *)
Definition int16 (s : string) : option N :=
  let digits :=
    match s with
    | String "0" (String "x" rest) => rest
    | String "0" (String "X" rest) => rest
    | _ => s
    end%char in
  match digits with
  | EmptyString => None
  | _ => digits_value 0 digits
  end.

Definition is_upper_hex (c : ascii) : bool :=
  let k := nat_of_ascii c in
  ((48 <=? k) && (k <=? 57) || (65 <=? k) && (k <=? 70))%nat.

End PyInt.

(** [AIAlgoManager._generate_unique_address()]: [random_bytes] is
    [os.urandom(8)] read as a big-endian number, so that [.hex().upper()] is
    its 16 upper-case digits. *)
Definition _generate_unique_address (random_bytes : N) : string :=
  "AIA-QTL-" ++ Py.zero_fill 16 (Py.format_hex true random_bytes).

(** The draws of one win: the difficulty it was won at, the luck and the
    bits of the hash. *)
Record mint_draw := { won_difficulty : float; won_luck : float; won_bits : N }.

(** The luck of the draw is within what
    [random.uniform(-LUCK_FACTOR_MAX, LUCK_FACTOR_MAX)] returns. *)
Definition luck_in_range (d : mint_draw) : Prop :=
  (- AIAlgoManager.LUCK_FACTOR_MAX <=? won_luck d)%float = true
  /\ (won_luck d <=? AIAlgoManager.LUCK_FACTOR_MAX)%float = true.

(** [distribute_reward] called once per element of [draws], in order. *)
Fixpoint mints (winner_node_id : string) (draws : list mint_draw)
    (m : AIAlgoManager.t) : AIAlgoManager.t :=
  match draws with
  | [] => m
  | d :: rest =>
      mints winner_node_id rest
        (AIAlgoManager.distribute_reward winner_node_id d.(won_difficulty) d.(won_luck)
           d.(won_bits) m)
  end.

Module Schedule.
Import AIAlgoEngine.

(** Nobody calls [stop_engine()] during the cycle. *)
Definition quiet (ev : cycle_events) : Prop :=
  stop_in_race ev = false /\ stop_in_sleep ev = false.

(** The asyncio calls of one pass of the loop. *)
Definition cycle_calls : list Asyncio.call :=
  [Run.the_wait; Asyncio.Sleep AIAlgoManager.BLOCK_TIME_SECONDS].

(** The log of [w'] is the log of [w] with entries added at its end. *)
Definition log_grows (w w' : t) : Prop :=
  exists added,
    AIAlgoManager.log_entries (manager w')
    = (AIAlgoManager.log_entries (manager w) ++ added)%list.

Definition appends {A} (c : M A) : Prop := forall w, log_grows w (snd (c w)).

End Schedule.

(** * Properties *)

(** ** Rounding in binary64 *)

Section Rounding.
Import Binary64.
Local Open Scope Z_scope.

Lemma iter_pos_nat {A} (f : A -> A) (p : positive) (x : A) :
  iter_pos f p x = Nat.iter (Pos.to_nat p) f x.
Proof.
  revert x; induction p as [p IH | p IH |]; intros x; cbn [iter_pos].
  - rewrite !IH, Pos2Nat.inj_xI.
    replace (S (2 * Pos.to_nat p)) with (Pos.to_nat p + S (Pos.to_nat p))%nat by lia.
    rewrite Nat.iter_add, Nat.iter_succ_r. reflexivity.
  - rewrite !IH, Pos2Nat.inj_xO.
    replace (2 * Pos.to_nat p)%nat with (Pos.to_nat p + Pos.to_nat p)%nat by lia.
    now rewrite Nat.iter_add.
  - reflexivity.
Qed.

Lemma shr_1_nonneg (m : Z) (r s : bool) :
  0 <= m ->
  shr_1 {| shr_m := m; shr_r := r; shr_s := s |}
  = {| shr_m := Z.div2 m; shr_r := Z.odd m; shr_s := r || s |}.
Proof. intros Hm. destruct m as [|[p|p|]|p]; try reflexivity; lia. Qed.

Lemma shr_inv_step (m P : Z) (mrs : shr_record) :
  0 < P -> shr_inv m P mrs -> shr_inv m (2 * P) (shr_1 mrs).
Proof.
  intros HP [Hq (rho & Hm & Hrho & Hr & Hs)].
  destruct mrs as [q r s]; cbn [shr_m shr_r shr_s] in *.
  rewrite shr_1_nonneg by exact Hq.
  pose proof (Z.div2_odd q) as Hdiv.
  assert (Hhalf : 0 <= Z.div2 q) by (apply Z.div2_nonneg; exact Hq).
  split; [exact Hhalf|]. cbn [shr_m shr_r shr_s].
  assert (Hrs : r || s = true <-> rho <> 0).
  { rewrite orb_true_iff, Hr, Hs. lia. }
  exists ((if Z.odd q then 1 else 0) * P + rho).
  destruct (Z.odd q); simpl Z.b2z in Hdiv.
  - split; [nia|]. split; [lia|]. split; [split; [lia | reflexivity]|].
    rewrite Hrs. lia.
  - split; [nia|]. split; [lia|]. split; [split; [discriminate | lia]|].
    rewrite Hrs. lia.
Qed.

Lemma shr_inv_iter (m : Z) (k : nat) :
  0 <= m ->
  shr_inv m (2 ^ Z.of_nat k)
    (Nat.iter k shr_1 {| shr_m := m; shr_r := false; shr_s := false |}).
Proof.
  intros Hm. induction k as [|k IH].
  - simpl. split; [exact Hm|]. exists 0. simpl.
    repeat split; try lia; intros; try discriminate; lia.
  - rewrite Nat2Z.inj_succ, Z.pow_succ_r by lia. simpl Nat.iter.
    apply shr_inv_step; [lia | exact IH].
Qed.

Lemma shr_inv_rne (m P : Z) (n : Z) (mrs : shr_record) :
  0 <= n -> P = 2 ^ n -> shr_inv m P mrs ->
  round_nearest_even (shr_m mrs) (loc_of_shr_record mrs) = rne m n.
Proof.
  intros Hn HP [Hq (rho & Hm & Hrho & Hr & Hs)].
  assert (Hpos : 0 < P) by (subst P; lia).
  unfold rne. rewrite <- HP.
  assert (Hdiv : m / P = shr_m mrs).
  { symmetry. apply (Z.div_unique_pos m P (shr_m mrs) rho); lia. }
  assert (Hmod : m mod P = rho).
  { symmetry. apply (Z.mod_unique_pos m P (shr_m mrs) rho); lia. }
  rewrite Hdiv, Hmod.
  destruct mrs as [q r s]; cbn [shr_m shr_r shr_s] in *.
  assert (Hr' : r = (P <=? 2 * rho)).
  { destruct r, (Z.leb_spec P (2 * rho)); try reflexivity.
    - destruct Hr as [Hr _]. specialize (Hr eq_refl). lia.
    - destruct Hr as [_ Hr]. now apply Hr. }
  assert (Hs' : s = negb ((2 * rho =? 0) || (2 * rho =? P))).
  { destruct s, (Z.eqb_spec (2 * rho) 0), (Z.eqb_spec (2 * rho) P); try reflexivity;
      try (destruct Hs as [Hs _]; specialize (Hs eq_refl); lia).
    destruct Hs as [_ Hs]. exfalso. specialize (Hs ltac:(lia)). discriminate. }
  subst r s.
  destruct (Z.compare_spec (2 * rho) P) as [Heq | Hlt | Hgt].
  - destruct (Z.leb_spec P (2 * rho)); [|lia].
    destruct (Z.eqb_spec (2 * rho) 0), (Z.eqb_spec (2 * rho) P); try lia; reflexivity.
  - destruct (Z.leb_spec P (2 * rho)); [lia|].
    destruct (Z.eqb_spec (2 * rho) 0), (Z.eqb_spec (2 * rho) P); try lia; reflexivity.
  - destruct (Z.leb_spec P (2 * rho)); [|lia].
    destruct (Z.eqb_spec (2 * rho) 0), (Z.eqb_spec (2 * rho) P); try lia; reflexivity.
Qed.

(** Closed form of one [shr]. *)
Lemma shr_closed (m e n : Z) :
  0 <= m -> 0 <= n ->
  let mrs := fst (shr {| shr_m := m; shr_r := false; shr_s := false |} e n) in
  round_nearest_even (shr_m mrs) (loc_of_shr_record mrs) = rne m n
  /\ snd (shr {| shr_m := m; shr_r := false; shr_s := false |} e n) = e + n.
Proof.
  intros Hm Hn. destruct n as [|p|p]; [| |lia].
  - simpl. split; [|lia]. unfold rne. rewrite Z.pow_0_r, Z.div_1_r, Z.mod_1_r. reflexivity.
  - cbn [shr fst snd]. split; [|reflexivity].
    rewrite iter_pos_nat.
    apply (shr_inv_rne m (2 ^ Z.pos p)); [lia | reflexivity |].
    rewrite <- (positive_nat_Z p) at 1. now apply shr_inv_iter.
Qed.

(** Digits *)
Lemma digits2_pos_bounds (p : positive) :
  2 ^ (Z.pos (digits2_pos p) - 1) <= Z.pos p < 2 ^ Z.pos (digits2_pos p).
Proof.
  induction p as [p IH | p IH |]; cbn [digits2_pos].
  - rewrite Pos2Z.inj_succ, (Pos2Z.inj_xI p).
    replace (Z.succ (Z.pos (digits2_pos p)) - 1) with (Z.succ (Z.pos (digits2_pos p) - 1)) by lia.
    rewrite !Z.pow_succ_r by lia. lia.
  - rewrite Pos2Z.inj_succ, (Pos2Z.inj_xO p).
    replace (Z.succ (Z.pos (digits2_pos p)) - 1) with (Z.succ (Z.pos (digits2_pos p) - 1)) by lia.
    rewrite !Z.pow_succ_r by lia. lia.
  - simpl. lia.
Qed.

Lemma Zdigits2_bounds (m : Z) :
  0 < m -> 2 ^ (Zdigits2 m - 1) <= m < 2 ^ Zdigits2 m.
Proof. intros Hm. destruct m as [|p|p]; try lia. apply digits2_pos_bounds. Qed.

Lemma Zdigits2_pos (m : Z) : 0 < m -> 0 < Zdigits2 m.
Proof. intros Hm. destruct m as [|p|p]; try lia. simpl. lia. Qed.

Lemma Zdigits2_unique (m k : Z) :
  0 < m -> 2 ^ (k - 1) <= m < 2 ^ k -> Zdigits2 m = k.
Proof.
  intros Hm [Hlo Hhi].
  pose proof (Zdigits2_bounds m Hm) as [Dlo Dhi].
  pose proof (Zdigits2_pos m Hm) as Dpos.
  assert (Hk : 0 < k).
  { destruct (Z_lt_le_dec 0 k) as [|Hle]; [assumption|].
    assert (2 ^ k <= 1).
    { destruct (Z.eq_dec k 0) as [->|]; [simpl; lia|].
      rewrite Z.pow_neg_r by lia. lia. }
    lia. }
  destruct (Z_lt_le_dec (Zdigits2 m) k) as [Hlt|Hge].
  - assert (2 ^ Zdigits2 m <= 2 ^ (k - 1)) by (apply Z.pow_le_mono_r; lia). lia.
  - destruct (Z_lt_le_dec k (Zdigits2 m)) as [Hlt|Hle]; [|lia].
    assert (2 ^ k <= 2 ^ (Zdigits2 m - 1)) by (apply Z.pow_le_mono_r; lia). lia.
Qed.

Lemma Zdigits2_mul_pow2 (m j : Z) :
  0 < m -> 0 <= j -> Zdigits2 (m * 2 ^ j) = Zdigits2 m + j.
Proof.
  intros Hm Hj.
  pose proof (Zdigits2_bounds m Hm) as [Dlo Dhi].
  pose proof (Zdigits2_pos m Hm) as Dpos.
  assert (Hp : 0 < 2 ^ j) by lia.
  apply Zdigits2_unique; [nia|].
  replace (Zdigits2 m + j - 1) with ((Zdigits2 m - 1) + j) by lia.
  rewrite !Z.pow_add_r by lia. nia.
Qed.

Lemma Zdigits2_mono (m1 m2 : Z) :
  0 < m1 -> m1 <= m2 -> Zdigits2 m1 <= Zdigits2 m2.
Proof.
  intros H1 H12.
  pose proof (Zdigits2_bounds m1 H1) as [Lo1 _].
  pose proof (Zdigits2_bounds m2 ltac:(lia)) as [_ Hi2].
  destruct (Z_lt_le_dec (Zdigits2 m2) (Zdigits2 m1)) as [Hlt|]; [|assumption].
  assert (2 ^ Zdigits2 m2 <= 2 ^ (Zdigits2 m1 - 1)).
  { apply Z.pow_le_mono_r; [lia|]. lia. }
  lia.
Qed.

Lemma fexp_64 (k : Z) : fexp prec emax k = fexp64 k.
Proof. reflexivity. Qed.

Lemma rne_nonneg (m n : Z) : 0 <= m -> 0 <= n -> 0 <= rne m n.
Proof.
  intros Hm Hn. unfold rne.
  assert (0 <= m / 2 ^ n) by (apply Z.div_pos; lia).
  destruct (_ ?= _); [destruct (Z.even _)| |]; lia.
Qed.

Lemma rne_between (m n : Z) :
  0 <= n -> m / 2 ^ n <= rne m n <= m / 2 ^ n + 1.
Proof.
  intros Hn. unfold rne.
  destruct (_ ?= _); [destruct (Z.even _)| |]; lia.
Qed.

Lemma rne_upper (m n t : Z) :
  0 <= m -> 0 <= n -> 0 <= t -> m < 2 ^ (n + t) -> rne m n <= 2 ^ t.
Proof.
  intros Hm Hn Ht Hlt.
  pose proof (rne_between m n Hn) as [_ Hle].
  rewrite Z.pow_add_r in Hlt by lia.
  assert (m / 2 ^ n < 2 ^ t).
  { apply Z.div_lt_upper_bound; lia. }
  lia.
Qed.

Lemma rne_lower (m n t : Z) :
  0 <= n -> 0 <= t -> 2 ^ (n + t) <= m -> 2 ^ t <= rne m n.
Proof.
  intros Hn Ht Hle.
  pose proof (rne_between m n Hn) as [Hlo _].
  rewrite Z.pow_add_r in Hle by lia.
  assert (2 ^ t <= m / 2 ^ n).
  { apply Z.div_le_lower_bound; lia. }
  lia.
Qed.

Lemma shr_fexp_idle (q c : Z) :
  0 <= q < 2 ^ 53 -> -1074 <= c ->
  shr_fexp prec emax q c loc_Exact = ({| shr_m := q; shr_r := false; shr_s := false |}, c).
Proof.
  intros [Hq0 Hq] Hc. unfold shr_fexp. rewrite fexp_64. cbn [shr_record_of_loc].
  assert (Hd : Zdigits2 q <= 53).
  { destruct (Z.eq_dec q 0) as [->|Hne]; [simpl; lia|].
    pose proof (Zdigits2_bounds q ltac:(lia)) as [Hlo _].
    destruct (Z_lt_le_dec 53 (Zdigits2 q)) as [Hgt|]; [|lia].
    assert (2 ^ 53 <= 2 ^ (Zdigits2 q - 1)) by (apply Z.pow_le_mono_r; lia). lia. }
  unfold fexp64, shr.
  destruct (Z.max (Zdigits2 q + c - 53) (-1074) - c) eqn:Hn; try reflexivity. lia.
Qed.

Lemma shr_fexp_carry (c : Z) :
  -1074 <= c ->
  shr_fexp prec emax (2 ^ 53) c loc_Exact
  = ({| shr_m := 2 ^ 52; shr_r := false; shr_s := false |}, c + 1).
Proof.
  intros Hc. unfold shr_fexp. rewrite fexp_64. cbn [shr_record_of_loc].
  change (Zdigits2 (2 ^ 53)) with 54. unfold fexp64.
  replace (Z.max (54 + c - 53) (-1074) - c) with 1 by lia.
  reflexivity.
Qed.

(** Closed form of [binary_round_aux] on an exact positive input that needs
    no shift to the left. *)
Lemma binary_round_aux_nearest (s : bool) (m e : Z) :
  0 < m -> e <= fexp64 (Zdigits2 m + e) ->
  binary_round_aux prec emax s m e loc_Exact = nearest s m e.
Proof.
  intros Hm He. unfold binary_round_aux, nearest.
  set (c := fexp64 (Zdigits2 m + e)) in *.
  assert (Hc : -1074 <= c) by (unfold c, fexp64; lia).
  unfold shr_fexp at 1. rewrite fexp_64. fold c. cbn [shr_record_of_loc].
  pose proof (shr_closed m e (c - e) ltac:(lia) ltac:(lia)) as [Hq He'].
  destruct (shr _ e (c - e)) as [mrs' e']. cbn [fst snd] in Hq, He'.
  rewrite Hq. replace e' with c by lia. clear Hq He' mrs' e'.
  set (q := rne m (c - e)).
  assert (Hq0 : 0 <= q) by (apply rne_nonneg; lia).
  assert (Hq53 : q <= 2 ^ 53).
  { apply rne_upper; try lia.
    pose proof (Zdigits2_bounds m Hm) as [_ Hhi].
    eapply Z.lt_le_trans; [exact Hhi|].
    apply Z.pow_le_mono_r; [lia|]. unfold c, fexp64. lia. }
  unfold renorm. destruct (Z.eqb_spec q (2 ^ 53)) as [Heq|Hne].
  - rewrite Heq, shr_fexp_carry by exact Hc. reflexivity.
  - rewrite shr_fexp_idle by lia. cbn [shr_m]. unfold pack.
    destruct q; reflexivity.
Qed.

Lemma pos_iter_xO (m d : positive) : Z.pos (Pos.iter xO m d) = Z.pos m * 2 ^ Z.pos d.
Proof.
  induction d as [|d IH] using Pos.peano_ind.
  - simpl. lia.
  - rewrite Pos.iter_succ, (Pos2Z.inj_xO (Pos.iter xO m d)), IH, Pos2Z.inj_succ.
    rewrite Z.pow_succ_r by lia. lia.
Qed.

Lemma shl_align_low (m : positive) (e e' : Z) :
  e' <= e ->
  Z.pos (fst (shl_align m e e')) = Z.pos m * 2 ^ (e - e') /\ snd (shl_align m e e') = e'.
Proof.
  intros Hle. unfold shl_align.
  destruct (e' - e) as [|d|d] eqn:Hd; cbn [fst snd].
  - replace (e - e') with 0 by lia. simpl. split; lia.
  - lia.
  - rewrite pos_iter_xO. replace (e - e') with (Z.pos d) by lia. split; reflexivity.
Qed.

Lemma shl_align_high (m : positive) (e e' : Z) :
  e <= e' -> shl_align m e e' = (m, e).
Proof.
  intros Hle. unfold shl_align. destruct (e' - e) as [|d|d] eqn:Hd; try reflexivity. lia.
Qed.

Lemma rne_scale (m n j : Z) :
  0 <= n -> 0 <= j -> rne (m * 2 ^ j) (n + j) = rne m n.
Proof.
  intros Hn Hj. unfold rne.
  rewrite Z.pow_add_r by lia.
  assert (Hp : 0 < 2 ^ n) by lia. assert (Hq : 0 < 2 ^ j) by lia.
  rewrite Z.div_mul_cancel_r by lia.
  rewrite Z.mul_mod_distr_r by lia.
  replace (2 * (m mod 2 ^ n * 2 ^ j)) with (2 * (m mod 2 ^ n) * 2 ^ j) by ring.
  rewrite <- Zmult_compare_compat_r by lia. reflexivity.
Qed.

Lemma nearest_scale (s : bool) (m e j : Z) :
  0 < m -> 0 <= j -> e <= fexp64 (Zdigits2 m + e) ->
  nearest s (m * 2 ^ j) (e - j) = nearest s m e.
Proof.
  intros Hm Hj He. unfold nearest.
  rewrite Zdigits2_mul_pow2 by lia.
  replace (Zdigits2 m + j + (e - j)) with (Zdigits2 m + e) by lia.
  set (c := fexp64 (Zdigits2 m + e)) in *.
  replace (c - (e - j)) with (c - e + j) by lia.
  rewrite rne_scale by lia. reflexivity.
Qed.

(** [binary_round] computes the float nearest to [M * 2 ^ E], which may be
    written with any exponent low enough. *)
Lemma binary_round_nearest (s : bool) (M : positive) (E J : Z) :
  0 <= J -> E - J <= -1074 ->
  binary_round prec emax s M E = nearest s (Z.pos M * 2 ^ J) (E - J).
Proof.
  intros HJ Hlow. unfold binary_round. rewrite fexp_64.
  change (Z.pos (digits2_pos M)) with (Zdigits2 (Z.pos M)).
  set (c := fexp64 (Zdigits2 (Z.pos M) + E)).
  assert (Hc : -1074 <= c) by (unfold c, fexp64; lia).
  destruct (Z_le_gt_dec E c) as [Hle|Hgt].
  - rewrite shl_align_high by exact Hle.
    rewrite binary_round_aux_nearest by (fold c; lia).
    symmetry. apply nearest_scale; fold c; lia.
  - pose proof (shl_align_low M E c ltac:(lia)) as [Hm He].
    destruct (shl_align M E c) as [mz ez]. cbn [fst snd] in Hm, He. subst ez.
    assert (Hdig : Zdigits2 (Z.pos mz) + c = Zdigits2 (Z.pos M) + E).
    { rewrite Hm, Zdigits2_mul_pow2 by lia. lia. }
    rewrite binary_round_aux_nearest by (rewrite ?Hdig; fold c; lia).
    rewrite <- (nearest_scale s (Z.pos mz) c (J - (E - c))); try lia.
    + rewrite Hm. f_equal; [|lia].
      rewrite <- Z.mul_assoc, <- Z.pow_add_r by lia. f_equal. f_equal. lia.
    + rewrite Hdig. fold c. lia.
Qed.

Lemma rne_mono (m1 m2 n : Z) : 0 <= n -> m1 <= m2 -> rne m1 n <= rne m2 n.
Proof.
  intros Hn Hle.
  assert (HP : 0 < 2 ^ n) by lia.
  pose proof (Z.div_le_mono m1 m2 (2 ^ n) HP Hle) as Hq.
  pose proof (rne_between m1 n Hn) as [_ Hup].
  pose proof (rne_between m2 n Hn) as [Hlo _].
  destruct (Z.eq_dec (m1 / 2 ^ n) (m2 / 2 ^ n)) as [Heq|Hne]; [|lia].
  pose proof (Z.div_mod m1 (2 ^ n) ltac:(lia)) as H1.
  pose proof (Z.div_mod m2 (2 ^ n) ltac:(lia)) as H2.
  assert (Hrho : m1 mod 2 ^ n <= m2 mod 2 ^ n) by (rewrite Heq in H1; lia).
  unfold rne. rewrite Heq.
  destruct (Z.compare_spec (2 * (m1 mod 2 ^ n)) (2 ^ n));
    destruct (Z.compare_spec (2 * (m2 mod 2 ^ n)) (2 ^ n));
    destruct (Z.even (m2 / 2 ^ n)); lia.
Qed.

Lemma pack_le (q1 c1 q2 c2 : Z) :
  0 <= q1 -> 0 <= q2 ->
  q1 = 0 \/ (c1 < c2 /\ 0 < q2) \/ (c1 = c2 /\ q1 <= q2) ->
  SFleb (pack false q1 c1) (pack false q2 c2) = true.
Proof.
  intros H1 H2 Hcases. unfold pack, SFleb.
  destruct q1 as [|p1|p1]; [| |lia]; destruct q2 as [|p2|p2]; try lia.
  - reflexivity.
  - destruct (c2 <=? 971); reflexivity.
  - destruct Hcases as [Hz | [[Hc Hq] | [Hc Hq]]]; [lia | |].
    + destruct (Z.leb_spec c1 971), (Z.leb_spec c2 971); cbn [SFcompare]; try reflexivity; try lia.
      rewrite (proj2 (Z.compare_lt_iff c1 c2)) by exact Hc. reflexivity.
    + subst c2. destruct (Z.leb_spec c1 971); cbn [SFcompare]; [|reflexivity].
      rewrite Z.compare_refl.
      change (Pos.compare_cont Eq p1 p2) with (Z.pos p1 ?= Z.pos p2).
      destruct (Z.compare_spec (Z.pos p1) (Z.pos p2)); try reflexivity. lia.
Qed.

Lemma renorm_le (q1 c1 q2 c2 : Z) :
  0 <= q1 <= 2 ^ 53 -> 0 <= q2 <= 2 ^ 53 ->
  (c1 = c2 /\ q1 <= q2) \/ (c1 < c2 /\ 2 ^ 52 <= q2) ->
  SFleb (renorm false q1 c1) (renorm false q2 c2) = true.
Proof.
  intros H1 H2 Hcases. unfold renorm.
  assert (H52 : 0 < 2 ^ 52) by lia.
  destruct (Z.eqb_spec q1 (2 ^ 53)), (Z.eqb_spec q2 (2 ^ 53));
    apply pack_le; try lia.
Qed.

(** Rounding to nearest is monotone on the positive numbers written with
    one exponent below the smallest exponent of the format. *)
Lemma nearest_mono (E0 N1 N2 : Z) :
  E0 <= -1074 -> 0 < N1 -> N1 <= N2 ->
  SFleb (nearest false N1 E0) (nearest false N2 E0) = true.
Proof.
  intros HE H1 H12. unfold nearest.
  pose proof (Zdigits2_mono N1 N2 H1 H12) as Hd.
  pose proof (Zdigits2_bounds N1 H1) as [Lo1 Hi1].
  pose proof (Zdigits2_bounds N2 ltac:(lia)) as [Lo2 Hi2].
  pose proof (Zdigits2_pos N1 H1) as D1.
  set (d1 := Zdigits2 N1) in *. set (d2 := Zdigits2 N2) in *.
  set (c1 := fexp64 (d1 + E0)). set (c2 := fexp64 (d2 + E0)).
  assert (Hc1 : -1074 <= c1 /\ d1 + E0 - 53 <= c1) by (unfold c1, fexp64; lia).
  assert (Hc2 : -1074 <= c2 /\ d2 + E0 - 53 <= c2) by (unfold c2, fexp64; lia).
  assert (Hc12 : c1 <= c2) by (unfold c1, c2, fexp64; lia).
  assert (Hb : forall N d c, 0 < N -> N < 2 ^ d -> -1074 <= c -> d + E0 - 53 <= c ->
                             0 <= rne N (c - E0) <= 2 ^ 53).
  { intros N d c HN Hlt Hc Hdc. split; [apply rne_nonneg; lia|].
    apply rne_upper; try lia.
    eapply Z.lt_le_trans; [exact Hlt|]. apply Z.pow_le_mono_r; lia. }
  apply renorm_le.
  - apply (Hb N1 d1 c1); lia.
  - apply (Hb N2 d2 c2); lia.
  - destruct (Z.eq_dec c1 c2) as [Heq|Hne].
    + left. split; [exact Heq|]. rewrite Heq. apply rne_mono; lia.
    + right. split; [lia|].
      assert (Hn2 : c2 = d2 + E0 - 53) by (unfold c2, fexp64 in *; lia).
      apply rne_lower; try lia.
      replace (c2 - E0 + 52) with (d2 - 1) by lia. exact Lo2.
Qed.

Lemma valid_finite (s : bool) (m : positive) (e : Z) :
  valid_binary (S754_finite s m e) = true ->
  -1074 <= e <= 971
  /\ Zdigits2 (Z.pos m) <= 53
  /\ (-1074 < e -> Zdigits2 (Z.pos m) = 53).
Proof.
  cbn [SpecFloat.valid_binary]. unfold bounded, canonical_mantissa.
  rewrite andb_true_iff, fexp_64, Z.eqb_eq, Z.leb_le.
  change (Z.pos (digits2_pos m)) with (Zdigits2 (Z.pos m)).
  change (emax - prec) with 971. unfold fexp64. lia.
Qed.

(** Among the valid positive numbers a smaller exponent is a smaller value. *)
Lemma exponent_order (m1 m2 : positive) (e1 e2 : Z) (s1 s2 : bool) :
  valid_binary (S754_finite s1 m1 e1) = true ->
  valid_binary (S754_finite s2 m2 e2) = true ->
  e1 < e2 ->
  Z.pos m1 * 2 ^ (e1 + 1074) < Z.pos m2 * 2 ^ (e2 + 1074).
Proof.
  intros V1 V2 Hlt.
  apply valid_finite in V1 as (He1 & Hd1 & _).
  apply valid_finite in V2 as (He2 & _ & Hd2).
  specialize (Hd2 ltac:(lia)).
  pose proof (Zdigits2_bounds (Z.pos m1) ltac:(lia)) as [_ Hi1].
  pose proof (Zdigits2_bounds (Z.pos m2) ltac:(lia)) as [Lo2 _].
  rewrite Hd2 in Lo2. change (2 ^ (53 - 1)) with (2 ^ 52) in Lo2.
  assert (H1 : Z.pos m1 < 2 ^ 53).
  { eapply Z.lt_le_trans; [exact Hi1|]. apply Z.pow_le_mono_r; lia. }
  assert (HA : 0 < 2 ^ (e1 + 1074)) by (apply Z.pow_pos_nonneg; lia).
  assert (HB : 2 * 2 ^ (e1 + 1074) <= 2 ^ (e2 + 1074)).
  { rewrite <- Z.pow_succ_r by lia. apply Z.pow_le_mono_r; lia. }
  change (2 ^ 53) with (2 * 2 ^ 52) in H1.
  nia.
Qed.

Lemma compare_scaled (x y : spec_float) :
  valid_binary x = true -> valid_binary y = true ->
  SF_finite x = true -> SF_finite y = true ->
  SFcompare x y = Some (scaled x ?= scaled y).
Proof.
  intros Vx Vy Fx Fy.
  destruct x as [sx | sx | | sx mx ex], y as [sy | sy | | sy my ey]; try discriminate;
    cbn [SFcompare scaled].
  - reflexivity.
  - assert (0 < Z.pos my * 2 ^ (ey + 1074)).
    { apply valid_finite in Vy. apply Z.mul_pos_pos; [lia | apply Z.pow_pos_nonneg; lia]. }
    destruct sy; cbn [cond_Zopp]; f_equal; symmetry;
      [apply Z.compare_gt_iff | apply Z.compare_lt_iff]; lia.
  - assert (0 < Z.pos mx * 2 ^ (ex + 1074)).
    { apply valid_finite in Vx. apply Z.mul_pos_pos; [lia | apply Z.pow_pos_nonneg; lia]. }
    destruct sx; cbn [cond_Zopp]; f_equal; symmetry;
      [apply Z.compare_lt_iff | apply Z.compare_gt_iff]; lia.
  - assert (Hx : 0 < Z.pos mx * 2 ^ (ex + 1074)).
    { apply valid_finite in Vx. apply Z.mul_pos_pos; [lia | apply Z.pow_pos_nonneg; lia]. }
    assert (Hy : 0 < Z.pos my * 2 ^ (ey + 1074)).
    { apply valid_finite in Vy. apply Z.mul_pos_pos; [lia | apply Z.pow_pos_nonneg; lia]. }
    assert (Hpos : forall a b, (a ?= b) = Lt \/ (a ?= b) = Eq \/ (a ?= b) = Gt).
    { intros a b. destruct (a ?= b); auto. }
    assert (Hlex :
              match ex ?= ey with
              | Lt => Lt
              | Gt => Gt
              | Eq => Pos.compare_cont Eq mx my
              end = (Z.pos mx * 2 ^ (ex + 1074) ?= Z.pos my * 2 ^ (ey + 1074))).
    { destruct (Z.compare_spec ex ey) as [Heq | Hlt | Hgt].
      - subst ey. rewrite <- Zmult_compare_compat_r by lia. reflexivity.
      - symmetry. apply Z.compare_lt_iff. eapply exponent_order; eassumption.
      - symmetry. apply Z.compare_gt_iff. eapply exponent_order; eassumption. }
    destruct sx, sy; cbn [cond_Zopp]; f_equal.
    + rewrite Z.compare_opp, (Z.compare_antisym (Z.pos mx * _)), <- Hlex.
      rewrite (Z.compare_antisym ey ex).
      destruct (ey ?= ex); reflexivity.
    + symmetry. apply Z.compare_lt_iff. lia.
    + symmetry. apply Z.compare_gt_iff. lia.
    + exact Hlex.
Qed.

Lemma leb_scaled (x y : spec_float) :
  valid_binary x = true -> valid_binary y = true ->
  SF_finite x = true -> SF_finite y = true ->
  SFleb x y = true -> scaled x <= scaled y.
Proof.
  intros Vx Vy Fx Fy. unfold SFleb. rewrite (compare_scaled x y Vx Vy Fx Fy).
  destruct (Z.compare_spec (scaled x) (scaled y)); try discriminate; lia.
Qed.

Lemma cond_Zopp_mul (s : bool) (a b : Z) : cond_Zopp s a * b = cond_Zopp s (a * b).
Proof. destruct s; cbn [cond_Zopp]; ring. Qed.

Lemma nearest_not_nan (s : bool) (m e : Z) :
  0 <= m -> fexp64 (Zdigits2 m + e) - e >= 0 -> nearest s m e <> S754_nan.
Proof.
  intros Hm Hn. unfold nearest, renorm.
  pose proof (rne_nonneg m (fexp64 (Zdigits2 m + e) - e) Hm ltac:(lia)) as Hq.
  destruct (_ =? _); unfold pack.
  - change (2 ^ 52) with 4503599627370496. destruct (_ <=? _); discriminate.
  - destruct (rne m _) as [|p|p]; [discriminate | destruct (_ <=? _); discriminate | lia].
Qed.

Lemma binary_round_not_nan (s : bool) (M : positive) (E : Z) :
  binary_round prec emax s M E <> S754_nan.
Proof.
  rewrite (binary_round_nearest s M E (Z.max 0 (E + 1074))) by lia.
  apply nearest_not_nan; [lia|].
  rewrite Zdigits2_mul_pow2 by lia. unfold fexp64. lia.
Qed.

(** The sum of two finite numbers is never NaN. *)
Lemma SFadd_finite_not_nan (x y : spec_float) :
  SF_finite x = true -> SF_finite y = true -> SFadd prec emax x y <> S754_nan.
Proof.
  intros Fx Fy.
  destruct x as [sx | sx | | sx mx ex], y as [sy | sy | | sy my ey]; try discriminate;
    cbn [SFadd].
  - destruct sx, sy; discriminate.
  - unfold binary_normalize.
    destruct (_ + _) as [|p|p]; [discriminate | apply binary_round_not_nan ..].
Qed.

(** The sum of two valid finite numbers, when positive, is the float nearest
    to the exact sum. *)
Lemma SFadd_nearest (sx sy : bool) (mx my : positive) (ex ey : Z) :
  valid_binary (S754_finite sx mx ex) = true ->
  valid_binary (S754_finite sy my ey) = true ->
  0 < scaled (S754_finite sx mx ex) + scaled (S754_finite sy my ey) ->
  SFadd prec emax (S754_finite sx mx ex) (S754_finite sy my ey)
  = nearest false (scaled (S754_finite sx mx ex) + scaled (S754_finite sy my ey)) (-1074).
Proof.
  intros Vx Vy Hpos.
  apply valid_finite in Vx as (Hex & _). apply valid_finite in Vy as (Hey & _).
  cbn [SFadd scaled] in *.
  set (ez := Z.min ex ey).
  destruct (shl_align_low mx ex ez ltac:(lia)) as [Hx _].
  destruct (shl_align_low my ey ez ltac:(lia)) as [Hy _].
  rewrite Hx, Hy.
  set (M := cond_Zopp sx (Z.pos mx * 2 ^ (ex - ez)) + cond_Zopp sy (Z.pos my * 2 ^ (ey - ez))).
  assert (HM : M * 2 ^ (ez + 1074)
               = cond_Zopp sx (Z.pos mx * 2 ^ (ex + 1074))
                 + cond_Zopp sy (Z.pos my * 2 ^ (ey + 1074))).
  { unfold M. rewrite Z.mul_add_distr_r, !cond_Zopp_mul, <- !Z.mul_assoc.
    rewrite <- !Z.pow_add_r by lia.
    replace (ex - ez + (ez + 1074)) with (ex + 1074) by lia.
    replace (ey - ez + (ez + 1074)) with (ey + 1074) by lia. reflexivity. }
  rewrite <- HM in *.
  assert (Hp : 0 < 2 ^ (ez + 1074)) by (apply Z.pow_pos_nonneg; lia).
  destruct M as [|P|P]; [lia | | lia].
  cbn [binary_normalize].
  rewrite (binary_round_nearest false P ez (ez + 1074)) by lia.
  f_equal. lia.
Qed.

(** The product of two valid positive numbers, the first with a full
    mantissa, is the float nearest to the exact product. *)
Lemma SFmul_nearest (mx my : positive) (ex ey : Z) :
  valid_binary (S754_finite false mx ex) = true ->
  valid_binary (S754_finite false my ey) = true ->
  Zdigits2 (Z.pos mx) = 53 ->
  SFmul prec emax (S754_finite false mx ex) (S754_finite false my ey)
  = nearest false (scaled (S754_finite false mx ex) * scaled (S754_finite false my ey)) (-2148).
Proof.
  intros Vx Vy Hd.
  apply valid_finite in Vx as (Hex & _). apply valid_finite in Vy as (Hey & _).
  cbn [SFmul scaled xorb cond_Zopp].
  assert (Hdig : 53 <= Zdigits2 (Z.pos (mx * my))).
  { rewrite <- Hd. apply Zdigits2_mono; [lia|]. rewrite Pos2Z.inj_mul. nia. }
  assert (Hc : ex + ey <= fexp64 (Zdigits2 (Z.pos (mx * my)) + (ex + ey))).
  { unfold fexp64. lia. }
  rewrite binary_round_aux_nearest by (lia || exact Hc).
  rewrite <- (nearest_scale false (Z.pos (mx * my)) (ex + ey) (ex + ey + 2148)) by (lia || exact Hc).
  f_equal; [|lia].
  rewrite Pos2Z.inj_mul.
  replace (ex + ey + 2148) with ((ex + 1074) + (ey + 1074)) by lia.
  rewrite Z.pow_add_r by lia. ring.
Qed.

(** A valid positive number is the float nearest to itself. *)
Lemma nearest_of_valid (m : positive) (e : Z) :
  valid_binary (S754_finite false m e) = true ->
  nearest false (scaled (S754_finite false m e)) (-1074) = S754_finite false m e.
Proof.
  intros V. apply valid_finite in V as (He & Hd & Hn).
  cbn [scaled cond_Zopp].
  pose proof (Zdigits2_bounds (Z.pos m) ltac:(lia)) as [_ Hhi].
  assert (Hc : fexp64 (Zdigits2 (Z.pos m) + e) = e).
  { unfold fexp64. destruct (Z.eq_dec e (-1074)); [lia|]. rewrite Hn by lia. lia. }
  replace (-1074) with (e - (e + 1074)) by lia.
  rewrite nearest_scale by lia.
  unfold nearest. rewrite Hc, Z.sub_diag.
  assert (Hr : rne (Z.pos m) 0 = Z.pos m).
  { unfold rne. rewrite Z.pow_0_r, Z.div_1_r, Z.mod_1_r. reflexivity. }
  rewrite Hr. unfold renorm.
  assert (H53 : Z.pos m < 2 ^ 53).
  { eapply Z.lt_le_trans; [exact Hhi|]. apply Z.pow_le_mono_r; lia. }
  destruct (Z.eqb_spec (Z.pos m) (2 ^ 53)); [lia|].
  unfold pack. destruct (Z.leb_spec e 971); [reflexivity | lia].
Qed.

Lemma scaled_pos_shape (x : spec_float) :
  0 < scaled x -> exists m e, x = S754_finite false m e.
Proof.
  destruct x as [s | s | | s m e]; cbn [scaled]; try lia.
  destruct s; cbn [cond_Zopp]; [|eauto]. intros H.
  assert (0 <= Z.pos m * 2 ^ (e + 1074)) by (apply Z.mul_nonneg_nonneg; [lia | apply Z.pow_nonneg; lia]).
  lia.
Qed.

(** The sum of two valid finite numbers, when positive, is the float
    nearest to the exact sum. *)
Lemma SFadd_exact (x y : spec_float) :
  valid_binary x = true -> valid_binary y = true ->
  SF_finite x = true -> SF_finite y = true ->
  0 < scaled x + scaled y ->
  SFadd prec emax x y = nearest false (scaled x + scaled y) (-1074).
Proof.
  intros Vx Vy Fx Fy Hpos.
  destruct x as [sx | sx | | sx mx ex], y as [sy | sy | | sy my ey]; try discriminate.
  - cbn [scaled] in Hpos |- *. rewrite Z.add_0_l in *.
    destruct (scaled_pos_shape (S754_finite sy my ey) Hpos) as (m & e & Heq).
    injection Heq as -> -> ->. cbn [SFadd].
    symmetry. apply (nearest_of_valid m e Vy).
  - cbn [scaled] in Hpos |- *. rewrite Z.add_0_r in *.
    destruct (scaled_pos_shape (S754_finite sx mx ex) Hpos) as (m & e & Heq).
    injection Heq as -> -> ->. cbn [SFadd].
    symmetry. apply (nearest_of_valid m e Vx).
  - now apply SFadd_nearest.
Qed.

Lemma SFcompare_antisym (x y : spec_float) :
  SFcompare y x = option_map CompOpp (SFcompare x y).
Proof.
  destruct x as [[|] | [|] | | [|] mx ex], y as [[|] | [|] | | [|] my ey];
    cbn [SFcompare option_map CompOpp]; try reflexivity;
    pose proof (Pos.compare_cont_antisym mx my Eq) as Hp; cbn [CompOpp] in Hp;
    rewrite (Z.compare_antisym ex ey), <- Hp;
    destruct (ex ?= ey)%Z; cbn [CompOpp]; try reflexivity;
    destruct (Pos.compare_cont Eq mx my); reflexivity.
Qed.

End Rounding.

(** ** Order and monotonicity on floats *)

Section FloatOrder.
Import Binary64.
Local Open Scope Z_scope.
Local Open Scope float_scope.

Lemma leb_scaled_iff (x y : float) :
  finite x -> finite y -> ((x <=? y) = true <-> (scaled (Prim2SF x) <= scaled (Prim2SF y))%Z).
Proof.
  intros Fx Fy. rewrite leb_spec. unfold SFleb.
  rewrite (compare_scaled _ _ (Prim2SF_valid x) (Prim2SF_valid y) Fx Fy).
  destruct (Z.compare_spec (scaled (Prim2SF x)) (scaled (Prim2SF y))); split;
    intros; try discriminate; try reflexivity; lia.
Qed.

Lemma ltb_scaled_iff (x y : float) :
  finite x -> finite y -> ((x <? y) = true <-> (scaled (Prim2SF x) < scaled (Prim2SF y))%Z).
Proof.
  intros Fx Fy. rewrite ltb_spec. unfold SFltb.
  rewrite (compare_scaled _ _ (Prim2SF_valid x) (Prim2SF_valid y) Fx Fy).
  destruct (Z.compare_spec (scaled (Prim2SF x)) (scaled (Prim2SF y))); split;
    intros; try discriminate; try reflexivity; lia.
Qed.

(** A float between two finite floats is finite. *)
Lemma finite_between (lo x hi : float) :
  finite lo -> finite hi -> (lo <=? x) = true -> (x <=? hi) = true -> finite x.
Proof.
  unfold finite. rewrite !leb_spec. unfold SFleb.
  destruct (Prim2SF lo) as [? | ? | | ? ? ?], (Prim2SF hi) as [? | ? | | ? ? ?];
    try discriminate;
    destruct (Prim2SF x) as [? | [|] | | ? ? ?]; cbn [SFcompare SF_finite];
    try discriminate; try reflexivity;
    repeat match goal with b : bool |- _ => destruct b end; discriminate.
Qed.

Lemma scaled_opp (x : float) : scaled (Prim2SF (- x)) = (- scaled (Prim2SF x))%Z.
Proof.
  rewrite opp_spec. destruct (Prim2SF x) as [s | s | | s m e]; cbn [SFopp scaled]; try reflexivity.
  destruct s; cbn [negb cond_Zopp]; lia.
Qed.

Lemma finite_opp (x : float) : finite x -> finite (- x).
Proof.
  unfold finite. rewrite opp_spec. destruct (Prim2SF x); cbn; congruence.
Qed.

(** Adding a number on the left is monotone, where the sums are positive. *)
Lemma add_le_mono_l (a x y : float) :
  finite a -> finite x -> finite y ->
  (- a <? x) = true -> (x <=? y) = true -> (a + x <=? a + y) = true.
Proof.
  intros Fa Fx Fy Hpos Hle.
  apply (ltb_scaled_iff _ _ (finite_opp a Fa) Fx) in Hpos. rewrite scaled_opp in Hpos.
  apply (leb_scaled_iff _ _ Fx Fy) in Hle.
  rewrite leb_spec, !add_spec. unfold SF64add.
  rewrite !SFadd_exact by (try apply Prim2SF_valid; try assumption; lia).
  apply nearest_mono; lia.
Qed.

(** Multiplying by a positive normal number on the left is monotone on the
    positive numbers. *)
Lemma mul_le_mono_l (a x y : float) :
  classify a = PNormal -> finite x -> finite y ->
  (0 <? x) = true -> (x <=? y) = true -> (a * x <=? a * y) = true.
Proof.
  intros Ha Fx Fy Hpos Hle.
  assert (F0 : finite 0) by reflexivity.
  apply (ltb_scaled_iff _ _ F0 Fx) in Hpos. change (scaled (Prim2SF 0)) with 0%Z in Hpos.
  apply (leb_scaled_iff _ _ Fx Fy) in Hle.
  rewrite leb_spec, !mul_spec. unfold SF64mul.
  pose proof (Prim2SF_valid a) as Va. pose proof (Prim2SF_valid x) as Vx.
  pose proof (Prim2SF_valid y) as Vy.
  rewrite classify_spec in Ha. unfold SF64classify, SFclassify in Ha.
  destruct (Prim2SF a) as [[|] | [|] | | [|] ma ea]; try discriminate;
    destruct (Z.eqb_spec (Z.pos (digits2_pos ma)) prec) as [Hd|]; try discriminate.
  change (Z.pos (digits2_pos ma)) with (Zdigits2 (Z.pos ma)) in Hd. change prec with 53%Z in Hd.
  destruct (scaled_pos_shape (Prim2SF x) Hpos) as (mx & ex & Hx).
  destruct (scaled_pos_shape (Prim2SF y) ltac:(lia)) as (my & ey & Hy).
  rewrite Hx, Hy in *.
  rewrite !SFmul_nearest by assumption.
  assert (Hsa : (0 < scaled (S754_finite false ma ea))%Z).
  { cbn [scaled cond_Zopp]. apply valid_finite in Va.
    apply Z.mul_pos_pos; [lia | apply Z.pow_pos_nonneg; lia]. }
  apply nearest_mono; [lia | nia | nia].
Qed.

Lemma reward_bounds (luck : float) :
  (-0.15 <=? luck) = true -> (luck <=? 0.15) = true ->
  (4.25 <=? 5.0 * (1 + luck)) = true /\ (5.0 * (1 + luck) <=? 5.75) = true.
Proof.
  intros Hlo Hhi.
  assert (Fl : finite luck) by (apply (finite_between (-0.15) luck 0.15); auto; reflexivity).
  assert (Hneg : (- (1) <? luck) = true).
  { apply ltb_scaled_iff; [reflexivity | exact Fl |].
    apply (leb_scaled_iff (-0.15) luck) in Hlo; [|reflexivity | exact Fl].
    eapply Z.lt_le_trans; [|exact Hlo]. vm_compute. reflexivity. }
  assert (Hs_lo : (0.85 <=? 1 + luck) = true).
  { change 0.85 with (1 + -0.15).
    apply add_le_mono_l; try assumption; reflexivity. }
  assert (Hs_hi : (1 + luck <=? 1.15) = true).
  { change 1.15 with (1 + 0.15).
    apply add_le_mono_l; try assumption; reflexivity. }
  assert (Fs : finite (1 + luck)).
  { apply (finite_between 0.85 (1 + luck) 1.15); auto; reflexivity. }
  assert (Hs_pos : (0 <? 1 + luck) = true).
  { apply ltb_scaled_iff; [reflexivity | exact Fs |].
    apply (leb_scaled_iff 0.85 (1 + luck)) in Hs_lo; [|reflexivity | exact Fs].
    eapply Z.lt_le_trans; [|exact Hs_lo]. vm_compute. reflexivity. }
  split.
  - change 4.25 with (5.0 * 0.85).
    apply mul_le_mono_l; try assumption; reflexivity.
  - change 5.75 with (5.0 * 1.15).
    apply mul_le_mono_l; try assumption; reflexivity.
Qed.

(** Among numbers, not below means at or above. *)
Lemma not_ltb_leb (x y : float) :
  Prim2SF x <> S754_nan -> Prim2SF y <> S754_nan ->
  (x <? y) = false -> (y <=? x) = true.
Proof.
  rewrite ltb_spec, leb_spec. unfold SFltb, SFleb.
  rewrite (SFcompare_antisym (Prim2SF x) (Prim2SF y)).
  intros Hx Hy.
  destruct (SFcompare (Prim2SF x) (Prim2SF y)) as [[| |]|] eqn:Hc;
    cbn [option_map CompOpp]; try reflexivity; try discriminate.
  intros _. exfalso.
  destruct (Prim2SF x) as [? | ? | | ? ? ?], (Prim2SF y) as [? | ? | | ? ? ?];
    cbn [SFcompare] in Hc; try discriminate; congruence.
Qed.

Lemma add_not_nan (b r : float) :
  (finite b \/ Prim2SF b = S754_infinity false) -> finite r ->
  Prim2SF (b + r) <> S754_nan.
Proof.
  intros Hb Fr. rewrite add_spec. unfold SF64add. destruct Hb as [Fb | Hinf].
  - now apply SFadd_finite_not_nan.
  - rewrite Hinf. unfold finite in Fr.
    destruct (Prim2SF r) as [? | ? | | ? ? ?]; try discriminate; cbn [SFadd]; discriminate.
Qed.

Lemma positive_shape (x : float) :
  (0 <? x) = true -> finite x \/ Prim2SF x = S754_infinity false.
Proof.
  rewrite ltb_spec. unfold SFltb, finite. change (Prim2SF 0) with (S754_zero false).
  destruct (Prim2SF x) as [? | [|] | | ? ? ?]; cbn [SFcompare SF_finite];
    try discriminate; auto.
Qed.

Lemma difficulty_floor (previous delta : float) :
  (-50.0 <=? delta) = true -> (delta <=? 50.0) = true ->
  (50.0 <=? Py.max ((if 0 <? previous then previous else 100.0) + delta) 50.0) = true.
Proof.
  intros Hlo Hhi.
  assert (Fd : finite delta) by (apply (finite_between (-50.0) delta 50.0); auto; reflexivity).
  set (base := if 0 <? previous then previous else 100.0).
  assert (Hb : finite base \/ Prim2SF base = S754_infinity false).
  { unfold base. destruct (0 <? previous) eqn:Hp; [now apply positive_shape | left; reflexivity]. }
  unfold Py.max. destruct (base + delta <? 50.0) eqn:Hlt; [reflexivity|].
  apply not_ltb_leb; [now apply add_not_nan | discriminate | exact Hlt].
Qed.

Lemma SFcompare_refl (x : spec_float) : x <> S754_nan -> SFcompare x x = Some Eq.
Proof.
  destruct x as [[|] | [|] | | [|] m e]; cbn [SFcompare]; intros Hx;
    try reflexivity; try congruence;
    rewrite Z.compare_refl, Pos.compare_cont_refl; reflexivity.
Qed.

(** Python's [max(s, 50.0)] on a number [s]: it is at least both, and it is
    [50.0] exactly when [s] is below it. *)
Lemma max_with_floor (s : float) :
  Prim2SF s <> S754_nan ->
  (s <=? Py.max s 50.0) = true
  /\ (if s <? 50.0 then Py.max s 50.0 = 50.0 else Py.max s 50.0 = s).
Proof.
  intros Hs. unfold Py.max. destruct (s <? 50.0) eqn:Hlt.
  - split; [|reflexivity].
    revert Hlt. rewrite ltb_spec, leb_spec. unfold SFltb, SFleb.
    destruct (SFcompare (Prim2SF s) (Prim2SF 50.0)) as [[| |]|]; congruence.
  - split; [|reflexivity].
    rewrite leb_spec. unfold SFleb. now rewrite SFcompare_refl.
Qed.

End FloatOrder.

(** ** Formatting *)

Section Formatting.

Lemma length_append (s1 s2 : string) :
  String.length (s1 ++ s2) = String.length s1 + String.length s2.
Proof. induction s1 as [|c s1 IH]; simpl; [reflexivity | now rewrite IH]. Qed.

Lemma length_repeat (c : ascii) (n : nat) : String.length (Py.repeat c n) = n.
Proof. induction n as [|n IH]; simpl; [reflexivity | now rewrite IH]. Qed.

Lemma forallb_append (p : ascii -> bool) (s1 s2 : string) :
  Py.string_forallb p (s1 ++ s2) = Py.string_forallb p s1 && Py.string_forallb p s2.
Proof. induction s1 as [|c s1 IH]; simpl; [reflexivity | now rewrite IH, andb_assoc]. Qed.

Lemma forallb_repeat (p : ascii -> bool) (c : ascii) (n : nat) :
  p c = true -> Py.string_forallb p (Py.repeat c n) = true.
Proof. intros Hc; induction n as [|n IH]; simpl; [reflexivity | now rewrite Hc, IH]. Qed.

Lemma hex_digit_lower (d : N) : Py.is_lower_hex (Py.hex_digit false d) = true.
Proof.
  destruct d as [|p]; [reflexivity|].
  do 4 (try destruct p as [p|p|]); reflexivity.
Qed.

(** Every pass of [hex_digits] puts one digit in front. *)
Lemma hex_digits_length_ge (fuel : nat) (upper : bool) (n : N) (acc : string) :
  String.length acc <= String.length (Py.hex_digits fuel upper n acc).
Proof.
  revert n acc; induction fuel as [|fuel IH]; intros n acc; simpl; [lia|].
  destruct (n / 16 =? 0)%N; simpl; [lia|].
  specialize (IH (n / 16)%N (String (Py.hex_digit upper (n mod 16)) acc)).
  simpl in IH; lia.
Qed.

(** A number below [16 ^ k] has at most [k] digits. *)
Lemma hex_digits_length_le (fuel : nat) (upper : bool) :
  forall (k : nat) (n : N) (acc : string),
    1 <= k -> (n < 16 ^ N.of_nat k)%N ->
    String.length (Py.hex_digits fuel upper n acc) <= String.length acc + k.
Proof.
  induction fuel as [|fuel IH]; intros k n acc Hk Hn; simpl; [lia|].
  destruct (N.eqb_spec (n / 16) 0) as [Hq|Hq]; simpl; [lia|].
  destruct k as [|[|k]]; [lia | |].
  - exfalso; apply Hq. apply N.div_small. exact Hn.
  - specialize (IH (S k) (n / 16)%N (String (Py.hex_digit upper (n mod 16)) acc)).
    simpl String.length in IH.
    assert (Hlt : (n / 16 < 16 ^ N.of_nat (S k))%N).
    { apply N.Div0.div_lt_upper_bound.
      replace (N.of_nat (S (S k))) with (N.succ (N.of_nat (S k))) in Hn by lia.
      rewrite N.pow_succ_r' in Hn. exact Hn. }
    specialize (IH ltac:(lia) Hlt). lia.
Qed.

Lemma hex_digits_lower (fuel : nat) :
  forall (n : N) (acc : string),
    Py.string_forallb Py.is_lower_hex acc = true ->
    Py.string_forallb Py.is_lower_hex (Py.hex_digits fuel false n acc) = true.
Proof.
  induction fuel as [|fuel IH]; intros n acc Hacc; simpl; [exact Hacc|].
  destruct (n / 16 =? 0)%N.
  - simpl. now rewrite hex_digit_lower, Hacc.
  - apply IH. simpl. now rewrite hex_digit_lower, Hacc.
Qed.

(** [f"{n:064x}"] of a 256-bit number is exactly 64 characters. *)
Lemma format_064x_length (n : N) :
  (n < 2 ^ 256)%N -> String.length (Py.format_064x n) = 64.
Proof.
  intros Hn. unfold Py.format_064x, Py.zero_fill, Py.format_hex.
  rewrite length_append, length_repeat.
  set (digits := Py.hex_digits (S (N.to_nat (N.log2 n))) false n EmptyString).
  assert (H16 : (16 ^ N.of_nat 64 = 2 ^ 256)%N) by (vm_compute; reflexivity).
  assert (Hle : String.length digits <= String.length EmptyString + 64).
  { apply hex_digits_length_le; [lia | now rewrite H16]. }
  change (String.length EmptyString) with 0 in Hle. lia.
Qed.

Lemma format_064x_lower_hex (n : N) :
  Py.string_forallb Py.is_lower_hex (Py.format_064x n) = true.
Proof.
  unfold Py.format_064x, Py.zero_fill, Py.format_hex.
  rewrite forallb_append, forallb_repeat by reflexivity.
  now rewrite hex_digits_lower.
Qed.

Lemma hex_value_hex_digit (upper : bool) (d : N) :
  (d < 16)%N -> PyInt.hex_value (Py.hex_digit upper d) = Some d.
Proof.
  intros Hd.
  assert (Hn : exists n, n < 16 /\ d = N.of_nat n) by (exists (N.to_nat d); lia).
  destruct Hn as (n & Hn & ->). clear Hd.
  do 16 (destruct n as [|n]; [destruct upper; reflexivity|]). lia.
Qed.

Lemma hex_digit_upper (d : N) : PyInt.is_upper_hex (Py.hex_digit true d) = true.
Proof.
  destruct d as [|p]; [reflexivity|].
  do 4 (try destruct p as [p|p|]); reflexivity.
Qed.

Lemma hex_digits_upper (fuel : nat) :
  forall (n : N) (acc : string),
    Py.string_forallb PyInt.is_upper_hex acc = true ->
    Py.string_forallb PyInt.is_upper_hex (Py.hex_digits fuel true n acc) = true.
Proof.
  induction fuel as [|fuel IH]; intros n acc Hacc; simpl; [exact Hacc|].
  destruct (n / 16 =? 0)%N.
  - simpl. now rewrite hex_digit_upper, Hacc.
  - apply IH. simpl. now rewrite hex_digit_upper, Hacc.
Qed.

(** Reading the digits written for [n] in front of [rest] is reading [rest]
    after [n]. *)
Lemma digits_value_hex_digits (upper : bool) (fuel : nat) :
  forall (n : N) (rest : string),
    (n < 16 ^ N.of_nat fuel)%N ->
    PyInt.digits_value 0 (Py.hex_digits fuel upper n rest) = PyInt.digits_value n rest.
Proof.
  induction fuel as [|fuel IH]; intros n rest Hn.
  - simpl in *. assert (n = 0%N) as -> by lia. reflexivity.
  - cbn [Py.hex_digits].
    assert (Hmod : (n mod 16 < 16)%N) by (apply N.mod_lt; lia).
    assert (Hsplit : (n = 16 * (n / 16) + n mod 16)%N) by (apply N.div_mod; lia).
    destruct (N.eqb_spec (n / 16) 0) as [Hq|Hq].
    + cbn [PyInt.digits_value]. rewrite (hex_value_hex_digit upper _ Hmod).
      f_equal. lia.
    + rewrite IH.
      * cbn [PyInt.digits_value]. rewrite (hex_value_hex_digit upper _ Hmod).
        f_equal. lia.
      * apply N.Div0.div_lt_upper_bound.
        replace (N.of_nat (S fuel)) with (N.succ (N.of_nat fuel)) in Hn by lia.
        rewrite N.pow_succ_r' in Hn. exact Hn.
Qed.

Lemma below_pow16_log2 (n : N) : (n < 16 ^ N.of_nat (S (N.to_nat (N.log2 n))))%N.
Proof.
  replace (N.of_nat (S (N.to_nat (N.log2 n)))) with (N.succ (N.log2 n)) by lia.
  destruct (N.eq_dec n 0) as [->|Hn]; [reflexivity|].
  apply N.lt_le_trans with (2 ^ N.succ (N.log2 n))%N.
  - apply N.log2_spec. lia.
  - apply N.pow_le_mono_l. lia.
Qed.

Lemma digits_value_format_hex (upper : bool) (n : N) :
  PyInt.digits_value 0 (Py.format_hex upper n) = Some n.
Proof.
  unfold Py.format_hex. rewrite digits_value_hex_digits by apply below_pow16_log2.
  reflexivity.
Qed.

Lemma digits_value_zeros (k : nat) (s : string) :
  PyInt.digits_value 0 (Py.repeat "0"%char k ++ s) = PyInt.digits_value 0 s.
Proof. induction k as [|k IH]; [reflexivity|]. simpl. exact IH. Qed.

Lemma digits_value_zero_fill (width : nat) (upper : bool) (n : N) :
  PyInt.digits_value 0 (Py.zero_fill width (Py.format_hex upper n)) = Some n.
Proof. unfold Py.zero_fill. now rewrite digits_value_zeros, digits_value_format_hex. Qed.

Lemma format_hex_length_pos (upper : bool) (n : N) :
  1 <= String.length (Py.format_hex upper n).
Proof.
  unfold Py.format_hex. cbn [Py.hex_digits].
  destruct (n / 16 =? 0)%N; [simpl; lia|].
  apply (hex_digits_length_ge (N.to_nat (N.log2 n)) upper (n / 16)
           (String (Py.hex_digit upper (n mod 16)) EmptyString)).
Qed.

Lemma zero_fill_length_pos (width : nat) (upper : bool) (n : N) :
  1 <= String.length (Py.zero_fill width (Py.format_hex upper n)).
Proof.
  unfold Py.zero_fill. rewrite length_append.
  pose proof (format_hex_length_pos upper n). lia.
Qed.

(** Upper-case digits are read as they stand: no [0x] is taken off. *)
Lemma int16_upper_digits (s : string) :
  1 <= String.length s -> Py.string_forallb PyInt.is_upper_hex s = true ->
  PyInt.int16 s = PyInt.digits_value 0 s.
Proof.
  destruct s as [|c s]; [simpl; lia|]. intros _ Hc. unfold PyInt.int16.
  destruct c as [[] [] [] [] [] [] [] []]; try reflexivity.
  destruct s as [|c' s']; [reflexivity|].
  destruct c' as [[] [] [] [] [] [] [] []]; try reflexivity; simpl in Hc; discriminate Hc.
Qed.

End Formatting.

(** ** The manager: credential gate and reward allocation *)

Section ManagerProperties.
Import AIAlgoManager.

Lemma log_message_frame (msg : message) (c : color) (m : t) :
  api_key (log_message msg c m) = api_key m
  /\ is_running (log_message msg c m) = is_running m
  /\ block_height (log_message msg c m) = block_height m
  /\ peer_count (log_message msg c m) = peer_count m
  /\ balance (log_message msg c m) = balance m
  /\ current_difficulty (log_message msg c m) = current_difficulty m
  /\ last_block_hash (log_message msg c m) = last_block_hash m.
Proof. repeat split. Qed.

(** C9: [set_api_key] with an empty key returns [False], keeps the stored
    key and appends one red error entry to the log, which has its earlier
    entries in front; with any non-empty key it stores the key as given,
    returns [True] and appends the entry that reports the key as loaded;
    [start_algorithm] on a manager with no key returns [False], appends one
    red error entry and leaves [is_running] (and every other field) as it
    was. *)
Theorem credential_gate (key : string) (m m_nokey : t) :
  Py.str_truthy key = true ->
  api_key m_nokey = "" ->
  (fst (set_api_key "" m) = false
   /\ api_key (snd (set_api_key "" m)) = api_key m
   /\ snd (set_api_key "" m)
      = log_message [Lit "ERROR: API Key field is empty."] red m
   /\ log_entries (snd (set_api_key "" m))
      = (log_entries m
         ++ [ {| entry_message := [Lit "ERROR: API Key field is empty."];
                 entry_color := red |} ])%list)
  /\ (fst (set_api_key key m) = true
      /\ api_key (snd (set_api_key key m)) = key
      /\ is_running (snd (set_api_key key m)) = is_running m
      /\ log_entries (snd (set_api_key key m))
         = (log_entries m
            ++ [ {| entry_message :=
                      [Lit "AI API Key Loaded. Client ready for block solving."];
                    entry_color := teal |} ])%list)
  /\ (fst (start_algorithm m_nokey) = false
      /\ is_running (snd (start_algorithm m_nokey)) = is_running m_nokey
      /\ snd (start_algorithm m_nokey)
         = log_message [Lit "ERROR: Cannot start. No API Key loaded."] red m_nokey
      /\ log_entries (snd (start_algorithm m_nokey))
         = (log_entries m_nokey
            ++ [ {| entry_message := [Lit "ERROR: Cannot start. No API Key loaded."];
                    entry_color := red |} ])%list
      /\ (api_key (snd (start_algorithm m_nokey)) = api_key m_nokey
          /\ block_height (snd (start_algorithm m_nokey)) = block_height m_nokey
          /\ balance (snd (start_algorithm m_nokey)) = balance m_nokey)).
Proof.
  intros Hkey Hnokey. split; [|split].
  - unfold set_api_key; simpl. repeat split.
  - unfold set_api_key. rewrite Hkey; simpl. repeat split.
  - unfold start_algorithm. rewrite Hnokey; simpl. repeat split. exact Hnokey.
Qed.

Lemma credential_gate_witness :
  fst (set_api_key "sk-test" (init 255 1234)) = true
  /\ fst (start_algorithm (init 255 1234)) = false
  /\ is_running (snd (start_algorithm (init 255 1234))) = false
  /\ log_entries (snd (start_algorithm (init 255 1234)))
     = [ {| entry_message := [Lit "Node ID: "; Str "AIAlgoNode-1234"; Lit " initialized."];
            entry_color := teal |};
         {| entry_message := [Lit "ERROR: Cannot start. No API Key loaded."];
            entry_color := red |} ]
  /\ log_entries (snd (set_api_key "" (init 255 1234)))
     = [ {| entry_message := [Lit "Node ID: "; Str "AIAlgoNode-1234"; Lit " initialized."];
            entry_color := teal |};
         {| entry_message := [Lit "ERROR: API Key field is empty."];
            entry_color := red |} ].
Proof.
  pose proof (credential_gate "sk-test" (init 255 1234) (init 255 1234) eq_refl eq_refl)
    as [[_ [_ [_ Hlog0]]] [[Hset _] [Hstart [Hrun [_ [Hlog _]]]]]].
  split; [exact Hset|]. split; [exact Hstart|]. split; [exact Hrun|].
  split; [exact Hlog | exact Hlog0].
Defined.

(** C1: [distribute_reward] is one function from manager to manager whose
    result has [balance] increased by the computed reward, [block_height]
    increased by exactly 1, [current_difficulty] set to the difficulty
    passed in, and [last_block_hash] replaced by ["0x"] followed by the 64
    lower-case hexadecimal digits of the 256 bits drawn, which read back as
    a number are those bits (so the hash is that of this draw, and two draws
    give the same hash only if they are equal); [api_key], [is_running],
    [peer_count], [wallet_address], [competing_nodes] and [node_id] are as
    before, and six entries are appended to the log. In the engine the
    allocation is one step of the engine task: with a true proof and
    [running] set, the outcome handling ends without having been suspended,
    the manager being the result of [distribute_reward] and the engine's own
    state, its record of asyncio calls included, as before, so that no other
    task of the event loop and no [stop_engine()] comes in between. *)
Theorem distribute_reward_transition (winner_node_id : string)
    (difficulty luck_modifier : float) (hash_bits : N) (m : t) :
  (hash_bits < 2 ^ 256)%N ->
  let m' := distribute_reward winner_node_id difficulty luck_modifier hash_bits m in
  balance m' = (balance m + final_reward luck_modifier)%float
  /\ block_height m' = (block_height m + 1)%Z
  /\ current_difficulty m' = difficulty
  /\ (last_block_hash m' = "0x" ++ Py.format_064x hash_bits
      /\ String.length (Py.format_064x hash_bits) = 64
      /\ Py.string_forallb Py.is_lower_hex (Py.format_064x hash_bits) = true)
  /\ (api_key m' = api_key m
      /\ is_running m' = is_running m
      /\ peer_count m' = peer_count m
      /\ wallet_address m' = wallet_address m
      /\ competing_nodes m' = competing_nodes m
      /\ node_id m' = node_id m)
  /\ (exists notes, log_entries m' = (log_entries m ++ notes)%list /\ List.length notes = 6)
  /\ (PyInt.int16 (last_block_hash m') = Some hash_bits
      /\ forall other_bits difficulty' luck' m0,
           last_block_hash (distribute_reward winner_node_id difficulty' luck' other_bits m0)
           = last_block_hash m' ->
           other_bits = hash_bits)
  /\ (forall (winning_proof : Py.value) (ev : AIAlgoEngine.cycle_events)
             (w : AIAlgoEngine.t),
        Py.truthy winning_proof = true ->
        AIAlgoEngine.running w = true ->
        AIAlgoEngine.process_result winning_proof difficulty ev w
        = (AIAlgoEngine.Ok tt,
           {| AIAlgoEngine.manager :=
                distribute_reward (node_id (AIAlgoEngine.manager w)) difficulty
                  (AIAlgoEngine.luck ev) (AIAlgoEngine.hash_bits ev)
                  (AIAlgoEngine.manager w);
              AIAlgoEngine.running := true;
              AIAlgoEngine.task := AIAlgoEngine.task w;
              AIAlgoEngine.cancel_pending := AIAlgoEngine.cancel_pending w;
              AIAlgoEngine.calls := AIAlgoEngine.calls w;
              AIAlgoEngine.solving := AIAlgoEngine.solving w |})).
Proof.
  intros Hbits m'. subst m'.
  split; [reflexivity|]. split; [reflexivity|]. split; [reflexivity|].
  split.
  { split; [reflexivity|]. split; [now apply format_064x_length|].
    apply format_064x_lower_hex. }
  split; [repeat split|].
  split.
  { unfold distribute_reward, _stamp_block_metadata; cbn [log_message log_entries mint].
    eexists. repeat rewrite <- app_assoc. split; [reflexivity|]. reflexivity. }
  assert (Hread : forall w0 d l b m0,
            PyInt.int16 (last_block_hash (distribute_reward w0 d l b m0)) = Some b).
  { intros w0 d l b m0.
    change (last_block_hash (distribute_reward w0 d l b m0))
      with (String "0" (String "x" (Py.format_064x b)))%char.
    unfold PyInt.int16.
    pose proof (digits_value_zero_fill 64 false b) as Hv.
    pose proof (zero_fill_length_pos 64 false b) as Hlen.
    fold (Py.format_064x b) in Hv, Hlen.
    destruct (Py.format_064x b) as [|c s]; [simpl in Hlen; lia | exact Hv]. }
  split.
  - split; [apply Hread|].
    intros other_bits difficulty' luck' m0 Heq.
    pose proof (Hread winner_node_id difficulty' luck' other_bits m0) as Hother.
    rewrite Heq, Hread in Hother. now injection Hother.
  - intros winning_proof ev w Hproof Hrun.
    unfold AIAlgoEngine.process_result, AIAlgoEngine.bind, AIAlgoEngine.get_running,
      AIAlgoEngine.get_manager, AIAlgoEngine.on_manager, AIAlgoEngine.with_manager.
    rewrite Hproof, Hrun. cbn [andb]. now rewrite Hrun.
Qed.

Lemma distribute_reward_transition_witness :
  (12345 < 2 ^ 256)%N
  /\ block_height (distribute_reward "AIAlgoNode-1234" 110 0.1 12345 (init 255 1234)) = 12346%Z
  /\ balance (distribute_reward "AIAlgoNode-1234" 110 0.1 12345 (init 255 1234))
     = (0 + final_reward 0.1)%float
  /\ last_block_hash (distribute_reward "AIAlgoNode-1234" 110 0.1 12345 (init 255 1234))
     = "0x0000000000000000000000000000000000000000000000000000000000003039"
  /\ PyInt.int16
       (last_block_hash (distribute_reward "AIAlgoNode-1234" 110 0.1 12345 (init 255 1234)))
     = Some 12345%N.
Proof.
  assert (Hbits : (12345 < 2 ^ 256)%N) by (vm_compute; reflexivity).
  pose proof (distribute_reward_transition "AIAlgoNode-1234" 110 0.1 12345
                (init 255 1234) Hbits)
    as [Hbal [Hheight [_ [[Hhash _] [_ [_ [[Hread _] _]]]]]]].
  split; [exact Hbits|]. split; [exact Hheight|]. split; [exact Hbal|].
  split; [exact Hhash | exact Hread].
Defined.

End ManagerProperties.

(** ** The engine: what a cycle may change *)

Section EngineFrame.
Import Asyncio AIAlgoEngine Ledger.

Lemma same_refl (w : t) : same w w.
Proof. repeat split. Qed.

Lemma same_trans (w1 w2 w3 : t) : same w1 w2 -> same w2 w3 -> same w1 w3.
Proof.
  intros (H1 & H2 & H3 & H4) (K1 & K2 & K3 & K4).
  repeat split; congruence.
Qed.

Lemma keeps_ret {A} (a : A) (P : A -> Prop) : P a -> keeps (ret a) P.
Proof.
  intros Ha w; split; [apply same_refl|].
  intros a' Heq; simpl in Heq. now inversion Heq; subst.
Qed.

Lemma keeps_raise {A} (e : exn) (P : A -> Prop) : keeps (raise e) P.
Proof. intros w; split; [apply same_refl | discriminate]. Qed.

Lemma keeps_bind {A B} (c : M A) (k : A -> M B) (P : A -> Prop) (Q : B -> Prop) :
  keeps c P -> (forall a, P a -> keeps (k a) Q) -> keeps (bind c k) Q.
Proof.
  intros Hc Hk w. unfold bind.
  destruct (Hc w) as [Hsame Hval].
  destruct (c w) as [[a | e |] w1]; simpl in *.
  - destruct (Hk a (Hval a eq_refl) w1) as [Hsame' Hval'].
    split; [eapply same_trans; eassumption | exact Hval'].
  - split; [exact Hsame | discriminate].
  - split; [exact Hsame | discriminate].
Qed.

Lemma keeps_weaken {A} (c : M A) (P Q : A -> Prop) :
  (forall a, P a -> Q a) -> keeps c P -> keeps c Q.
Proof. intros HPQ Hc w. destruct (Hc w) as [Hs Hv]. split; auto. Qed.

Lemma keeps_try_except {A} (body h1 : M A) (h2 : exn -> M A) (P : A -> Prop) :
  keeps body P -> keeps h1 P -> (forall e, keeps (h2 e) P) ->
  keeps (try_except body h1 h2) P.
Proof.
  intros Hb H1 H2 w. unfold try_except.
  destruct (Hb w) as [Hsame Hval].
  destruct (body w) as [[a | e |] w1]; simpl in *.
  - split; [exact Hsame | exact Hval].
  - destruct e; simpl;
      [ destruct (H1 w1) as [Hs Hv]
      | match goal with |- context [h2 ?e w1] => destruct (H2 e w1) as [Hs Hv] end .. ];
      (split; [eapply same_trans; eassumption | exact Hv]).
  - split; [exact Hsame | discriminate].
Qed.

Lemma keeps_log (msg : message) (c : color) : keeps (log msg c) (fun _ => True).
Proof. intros w; split; [repeat split | trivial]. Qed.

Lemma keeps_get_manager : keeps get_manager (fun _ => True).
Proof. intros w; split; [apply same_refl | trivial]. Qed.

Lemma keeps_record_call (c : call) :
  keeps (fun w => (Ok tt, record_call c w)) (fun _ => True).
Proof. intros w; split; [repeat split | trivial]. Qed.

Lemma stop_engine_same (w : t) : same w (stop_engine w).
Proof.
  unfold stop_engine. destruct (running w); [|apply same_refl].
  cbn [task with_manager with_running]. destruct (task w); repeat split.
Qed.

Lemma keeps_suspend (stop : bool) : keeps (suspend stop) (fun _ => True).
Proof.
  intros w; split; [|trivial]. unfold suspend.
  destruct stop; [pose proof (stop_engine_same w) as Hs | pose proof (same_refl w) as Hs];
    match goal with |- context [cancel_pending ?x] => destruct (cancel_pending x) end;
    simpl; exact Hs.
Qed.

Lemma late_proofs_frame (proofs : list N) (m : AIAlgoManager.t) :
  AIAlgoManager.block_height (late_proofs proofs m) = AIAlgoManager.block_height m
  /\ AIAlgoManager.balance (late_proofs proofs m) = AIAlgoManager.balance m
  /\ AIAlgoManager.current_difficulty (late_proofs proofs m)
     = AIAlgoManager.current_difficulty m
  /\ AIAlgoManager.last_block_hash (late_proofs proofs m) = AIAlgoManager.last_block_hash m.
Proof.
  revert m. induction proofs as [|bits rest IH]; intros m; [repeat split|].
  cbn [late_proofs fold_left]. fold (late_proofs rest).
  destruct (IH (snd (AIAlgoManager.solve_block_encryption_finish bits m)))
    as (H1 & H2 & H3 & H4).
  repeat split; assumption.
Qed.

Lemma keeps_get_solving : keeps get_solving (fun _ => True).
Proof. intros w; split; [apply same_refl | trivial]. Qed.

Lemma keeps_set_solving (f : nat -> nat) :
  keeps (fun w => (Ok tt, with_solving (f (solving w)) w)) (fun _ => True).
Proof. intros w; split; [repeat split | trivial]. Qed.

Lemma keeps_orphans_end (earlier : nat) (late : list N) :
  keeps (orphans_end earlier late) (fun _ => True).
Proof.
  intros w; split; [|trivial]. unfold orphans_end, same.
  cbn [snd manager with_solving with_manager].
  apply late_proofs_frame.
Qed.

Lemma keeps_sleep (seconds : Z) (late : list N) (stop follow_up : bool) :
  keeps (sleep seconds late stop follow_up) (fun _ => True).
Proof.
  unfold sleep. eapply keeps_bind; [apply keeps_record_call|].
  intros _ _ w.
  destruct (follow_up && negb (running w) && task w).
  - split; [repeat split | discriminate].
  - revert w. eapply keeps_bind; [apply keeps_get_solving|]. intros earlier _.
    eapply keeps_bind; [apply keeps_orphans_end|]. intros _ _. apply keeps_suspend.
Qed.

Lemma keeps_on_manager_log (f : AIAlgoManager.t -> AIAlgoManager.t) :
  (forall m, exists msg c, f m = AIAlgoManager.log_message msg c m) ->
  keeps (on_manager f) (fun _ => True).
Proof.
  intros Hf w; split; [|trivial]. unfold on_manager; simpl.
  destruct (Hf (manager w)) as (msg & c & ->). repeat split.
Qed.

Lemma keeps_operation_begins (difficulty : float) (ev : cycle_events) (h : handle) :
  keeps (operation_begins difficulty ev h) (fun _ => True).
Proof.
  destruct h as [op | [|] |]; cbn [operation_begins];
    intros w; (split; [repeat split | trivial]).
Qed.

Lemma keeps_operations_begin (difficulty : float) (ev : cycle_events) (tasks : list handle) :
  keeps (operations_begin difficulty ev tasks) (fun _ => True).
Proof.
  induction tasks as [|h rest IH]; cbn [operations_begin]; [now apply keeps_ret|].
  eapply keeps_bind; [apply keeps_operation_begins|]. intros _ _. exact IH.
Qed.

Lemma keeps_operations_end (ev : cycle_events) (tasks : list handle) :
  keeps (operations_end ev tasks) (fun _ => True).
Proof.
  unfold operations_end.
  destruct (mem (task_of our_attempt) tasks); [|now apply keeps_ret].
  destruct (ending_of (finished ev) our_attempt) as [[|msg]|].
  - eapply keeps_bind with (P := fun _ => True).
    + apply keeps_on_manager_log; intros m; eexists _, _; reflexivity.
    + intros _ _. apply (keeps_set_solving pred).
  - apply (keeps_set_solving pred).
  - now apply keeps_ret.
Qed.

(** What a wait on tasks returns holds tasks only. *)
Lemma keeps_wait_for (tasks : list handle) (difficulty : float) (ev : cycle_events) :
  forallb (fun h => negb (iscoroutine h)) tasks = true ->
  keeps (wait_for tasks difficulty ev)
        (fun done_pending =>
           forall op, mem (coroutine_of op) (fst done_pending) = false).
Proof.
  intros Htasks. unfold wait_for.
  eapply keeps_bind; [apply keeps_get_solving|]. intros earlier _.
  eapply keeps_bind; [apply keeps_operations_begin|]. intros _ _.
  eapply keeps_bind; [apply keeps_orphans_end|]. intros _ _.
  eapply keeps_bind; [apply keeps_suspend|]. intros _ _.
  eapply keeps_bind; [apply keeps_operations_end|]. intros _ _.
  apply keeps_ret. intros op. cbn [fst].
  induction tasks as [|h rest IH]; [reflexivity|].
  cbn [forallb] in Htasks. apply andb_prop in Htasks as [Hh Hrest].
  cbn [filter]. destruct (is_done (finished ev) h); [|now apply IH].
  cbn [mem existsb]. fold (mem (coroutine_of op) (filter (is_done (finished ev)) rest)).
  rewrite (IH Hrest), orb_false_r.
  destruct h as [op' | op' |]; [discriminate Hh | reflexivity | reflexivity].
Qed.

(** What [asyncio.wait] returns never contains a coroutine object. *)
Lemma keeps_wait (v : version) (difficulty : float) (ev : cycle_events) :
  keeps (wait v [coroutine_of our_attempt; coroutine_of p2p_check] difficulty ev)
        (fun done_pending =>
           mem (coroutine_of our_attempt) (fst done_pending) = false
           /\ mem (coroutine_of p2p_check) (fst done_pending) = false).
Proof.
  unfold wait. eapply keeps_bind; [apply keeps_record_call|]. intros _ _.
  destruct v.
  - eapply keeps_weaken; [|apply keeps_wait_for].
    + intros dp Hdp. split; apply Hdp.
    + destruct (set_reversed ev); reflexivity.
  - simpl. apply keeps_raise.
Qed.

Lemma keeps_race (v : version) (difficulty : float) (ev : cycle_events) :
  keeps (_run_ai_competition v difficulty ev) (fun r => Py.truthy r = false).
Proof.
  unfold _run_ai_competition. apply keeps_try_except.
  - eapply keeps_bind; [apply keeps_wait|].
    intros [done pending] [Hour Hp2p]; simpl in *. rewrite Hour, Hp2p.
    now apply keeps_ret.
  - eapply keeps_bind; [apply keeps_log|]. intros _ _. now apply keeps_ret.
  - intros e. eapply keeps_bind; [apply keeps_log|]. intros _ _. now apply keeps_ret.
Qed.

End EngineFrame.

(** ** The race and the scheduler *)

Section EngineProperties.
Import Asyncio AIAlgoEngine Ledger.

(** The race always hands a value back: whatever is raised inside its [try]
    is turned into a return. *)
Lemma race_returns (v : version) (difficulty : float) (ev : cycle_events) (w : t) :
  exists r w', _run_ai_competition v difficulty ev w = (Ok r, w').
Proof.
  assert (Hok : match fst (_run_ai_competition v difficulty ev w) with
                | Ok _ => True
                | _ => False
                end).
  { destruct w as [m run tk cp cs sv], ev as [sw pe sj pj pb fin sr lu hb ss rv lr ls th].
    destruct v, rv, sr, run, tk, cp, fin as [[|?]|[|?]|[|?] [|?]]; vm_compute; exact I. }
  destruct (_run_ai_competition v difficulty ev w) as [[r | e |] w'];
    [now exists r, w' | contradiction ..].
Qed.

(** C3 (the code departs from the claim): whichever operation is done first,
    and on either release of the library, the race returns a value that is
    false in a condition; it never returns the proof of the local solve. *)
Theorem race_never_reports_a_win (v : version) (difficulty : float)
    (ev : cycle_events) (w : t) :
  exists r w', _run_ai_competition v difficulty ev w = (Ok r, w') /\ Py.truthy r = false.
Proof.
  destruct (race_returns v difficulty ev w) as (r & w' & Hrun).
  exists r, w'. split; [exact Hrun|].
  apply (keeps_race v difficulty ev w). now rewrite Hrun.
Qed.

(** The local solve alone is done and has returned: up to Python 3.10 the
    race ends without [return]; from 3.11 on the wait raises and the race
    returns the empty string. *)
Example solve_first_wraps :
  fst (_run_ai_competition wraps_coroutines 110 (Run.events (solve_first returned) false)
         Run.started) = Ok Py.VNone.
Proof. reflexivity. Qed.

Example solve_first_rejects :
  fst (_run_ai_competition rejects_coroutines 110 (Run.events (solve_first returned) false)
         Run.started) = Ok (Py.VStr "").
Proof. reflexivity. Qed.

(** The reward gate of the loop body. *)
Lemma process_result_gate (proof : Py.value) (difficulty : float) (ev : cycle_events) (w : t) :
  process_result proof difficulty ev w
  = if Py.truthy proof && running w then
      (Ok tt, with_manager
                (AIAlgoManager.distribute_reward (AIAlgoManager.node_id (manager w))
                   difficulty (luck ev) (hash_bits ev) (manager w)) w)
    else
      (Ok tt, with_manager
                (AIAlgoManager.log_message [Lit "Block solving failed or engine stopped."]
                   red (manager w)) w).
Proof.
  unfold process_result, bind, get_running; simpl.
  destruct (Py.truthy proof && running w); reflexivity.
Qed.

Lemma keeps_process_result (proof : Py.value) (difficulty : float) (ev : cycle_events) :
  Py.truthy proof = false -> keeps (process_result proof difficulty ev) (fun _ => True).
Proof.
  intros Hfalsy w. rewrite process_result_gate, Hfalsy. simpl.
  split; [repeat split | trivial].
Qed.

Lemma keeps_cycle_body (v : version) (ev : cycle_events) :
  keeps (cycle_body v ev) (fun _ => True).
Proof.
  unfold cycle_body.
  eapply keeps_bind; [apply keeps_get_manager|]. intros m _.
  eapply keeps_bind with (P := fun _ => True).
  { intros w; split; [repeat split | trivial]. }
  intros _ _. eapply keeps_bind; [apply keeps_get_manager|]. intros m' _.
  eapply keeps_bind; [apply keeps_log|]. intros _ _.
  eapply keeps_bind; [apply keeps_log|]. intros _ _.
  eapply keeps_bind; [apply keeps_race|]. intros r Hr.
  eapply keeps_bind; [apply (keeps_process_result _ _ _ Hr)|]. intros _ _.
  apply keeps_log.
Qed.

Lemma keeps_cycle (v : version) (ev : cycle_events) : keeps (cycle v ev) (fun _ => True).
Proof.
  unfold cycle.
  eapply keeps_bind; [apply keeps_cycle_body|]. intros _ _.
  apply keeps_sleep.
Qed.

Lemma keeps_loop (v : version) (evs : list cycle_events) : keeps (loop v evs) (fun _ => True).
Proof.
  induction evs as [|ev evs IH]; intros w; simpl.
  - destruct (running w); split; try apply same_refl; trivial.
  - destruct (running w); [|split; [apply same_refl | trivial]].
    apply (keeps_bind (cycle v ev) (fun _ => loop v evs) (fun _ => True) (fun _ => True)).
    + apply keeps_cycle.
    + intros _ _. exact IH.
Qed.

Lemma keeps_start_engine (v : version) (evs : list cycle_events) :
  keeps (start_engine v evs) (fun _ => True).
Proof.
  unfold start_engine.
  eapply keeps_bind with (P := fun _ => True).
  { intros w; split; [repeat split | trivial]. }
  intros _ _. eapply keeps_bind; [apply keeps_log|]. intros _ _.
  apply keeps_loop.
Qed.

(** C6: in a cycle that the peer consensus wins the race returns a false
    value and the outcome handling only appends the failure entry to the log;
    over any number of such cycles in a row [block_height],
    [current_difficulty], [balance] (and [last_block_hash]) are the same
    after [start_engine] as before. *)
Theorem losing_cycles_keep_block_state (v : version) (evs : list cycle_events) (w : t) :
  Forall loss_cycle evs ->
  Forall (fun ev =>
            forall difficulty w0,
            exists r w1,
              _run_ai_competition v difficulty ev w0 = (Ok r, w1)
              /\ Py.truthy r = false
              /\ process_result r difficulty ev w1
                 = (Ok tt, with_manager
                             (AIAlgoManager.log_message
                                [Lit "Block solving failed or engine stopped."] red
                                (manager w1)) w1)) evs
  /\ same w (snd (start_engine v evs w)).
Proof.
  intros Hloss. split.
  - apply Forall_forall. intros ev _ difficulty w0.
    destruct (race_returns v difficulty ev w0) as (r & w1 & Hrun).
    assert (Hr : Py.truthy r = false).
    { apply (keeps_race v difficulty ev w0). now rewrite Hrun. }
    exists r, w1. split; [exact Hrun|]. split; [exact Hr|].
    now rewrite process_result_gate, Hr.
  - apply keeps_start_engine.
Qed.

Lemma losing_cycles_keep_block_state_witness :
  AIAlgoManager.block_height
    (manager (snd (start_engine wraps_coroutines
                     [Run.events (consensus_first returned) false;
                      Run.events (consensus_first returned) false] Run.node)))
  = 12345%Z.
Proof.
  assert (Hloss : Forall loss_cycle [Run.events (consensus_first returned) false;
                                      Run.events (consensus_first returned) false]).
  { repeat constructor; now exists returned. }
  exact (proj1 (proj2 (losing_cycles_keep_block_state wraps_coroutines _ Run.node Hloss))).
Defined.

End EngineProperties.

(** ** Stopping during the race *)

Section Abort.
Import Asyncio AIAlgoEngine Ledger.

Lemma loop_stopped (v : version) (evs : list cycle_events) (w : t) :
  running w = false -> loop v evs w = (Ok tt, w).
Proof. intros Hstop. destruct evs; simpl; now rewrite Hstop. Qed.

Lemma loop_running (v : version) (ev : cycle_events) (evs : list cycle_events) (w : t) :
  running w = true -> loop v (ev :: evs) w = bind (cycle v ev) (fun _ => loop v evs) w.
Proof. intros Hrun. simpl. now rewrite Hrun. Qed.

(** The log after solves left running have ended. *)
Lemma late_proofs_log (proofs : list N) (m : AIAlgoManager.t) :
  AIAlgoManager.log_entries (late_proofs proofs m)
  = (AIAlgoManager.log_entries m ++ map Note.proof_received proofs)%list.
Proof.
  revert m. induction proofs as [|bits rest IH]; intros m.
  - cbn. now rewrite app_nil_r.
  - cbn [late_proofs fold_left map]. fold (late_proofs rest). rewrite IH.
    cbn [AIAlgoManager.solve_block_encryption_finish snd AIAlgoManager.log_message
         AIAlgoManager.log_entries].
    now rewrite <- app_assoc.
Qed.






End Abort.

(** ** What the race asks of asyncio *)

Section RaceCalls.
Import Asyncio AIAlgoEngine Ledger.

(** The asyncio calls of a race: the wait, and the [cancel] of the engine
    task when a [stop_engine()] reaches a running engine whose task is
    stored, which can only happen where the wait suspends the race. *)
Lemma race_calls (v : version) (difficulty : float) (ev : cycle_events) (w : t) :
  calls (snd (_run_ai_competition v difficulty ev w))
  = (if match v with wraps_coroutines => true | rejects_coroutines => false end
        && stop_in_race ev && running w && task w
     then (calls w ++ [Run.the_wait]) ++ [Cancel engine_task]
     else calls w ++ [Run.the_wait])%list.
Proof.
  destruct w as [m run tk cp cs sv], ev as [sw pe sj pj pb fin sr lu hb ss rv lr ls th].
  destruct v, rv, sr, run, tk, cp, fin as [[|?]|[|?]|[|?] [|?]]; vm_compute; reflexivity.
Qed.

(** The wait of the race up to Python 3.10: what it hands back, and the
    state it leaves, [m5] being the manager once both operations have begun. *)
Lemma race_wait (difficulty : float) (ev : cycle_events) (w : t) :
  let tasks := set_iteration (set_reversed ev) [task_of our_attempt; task_of p2p_check] in
  let m5 :=
    if set_reversed ev
    then snd (AIAlgoManager.solve_block_encryption_start difficulty (solve_jitter ev)
                (snd (_simulate_p2p_consensus_start difficulty (p2p_jitter ev) (manager w))))
    else snd (_simulate_p2p_consensus_start difficulty (p2p_jitter ev)
                (snd (AIAlgoManager.solve_block_encryption_start difficulty (solve_jitter ev)
                        (manager w)))) in
  let m6 := late_proofs (firstn (solving w) (late_in_race ev)) m5 in
  let w6 := with_solving (S (solving w)
                          - List.length (firstn (solving w) (late_in_race ev)))
              (with_manager m6 (record_call Run.the_wait w)) in
  let w7 := if stop_in_race ev then stop_engine w6 else w6 in
  wait wraps_coroutines [coroutine_of our_attempt; coroutine_of p2p_check] difficulty ev w
  = if cancel_pending w7 then (Raise CancelledError, with_cancel_pending false w7)
    else
      (Ok (filter (is_done (finished ev)) tasks,
           filter (fun h => negb (is_done (finished ev) h)) tasks),
       match ending_of (finished ev) our_attempt with
       | Some returned =>
           with_solving (pred (solving w7))
             (with_manager
                (snd (AIAlgoManager.solve_block_encryption_finish (proof_bits ev)
                        (manager w7))) w7)
       | Some (raised _) => with_solving (pred (solving w7)) w7
       | None => w7
       end).
Proof.
  destruct w as [m run tk cp cs sv], ev as [sw pe sj pj pb fin sr lu hb ss rv lr ls th].
  destruct rv, sr, run, tk, cp, fin as [[|?]|[|?]|[|?] [|?]];
    cbv [wait wait_for bind ret raise get_solving operations_begin operation_begins
         on_manager orphans_end suspend operations_end record_call with_manager
         with_solving with_cancel_pending with_running stop_engine map ensure_future
         set_iteration rev app mem existsb handle_eqb operation_eqb filter is_done
         ending_of negb orb andb manager running task cancel_pending calls solving
         fst snd iscoroutine Run.the_wait
         swirl peers solve_jitter p2p_jitter proof_bits finished stop_in_race luck
         hash_bits stop_in_sleep set_reversed late_in_race late_in_sleep stop_by_thread
         log pred];
    reflexivity.
Qed.

(** C4, as the code has it: the race makes one call into asyncio, the wait
    on both operations together; besides it only the [cancel] of the engine
    task by a [stop_engine()] from outside can be recorded, never a [cancel]
    of an operation. Where the wait accepts the operations (Python up to
    3.10) it makes a task of each, in the order in which the set it builds
    iterates, which need not be the order in which they were written; both
    begin, in that order, once the race is suspended, also when the wait is
    cancelled; the wait hands back at least one finished task, every other
    task being left pending, and a solve it leaves pending keeps running. *)
Theorem race_leaves_the_loser_pending (v : version) (difficulty : float)
    (ev : cycle_events) (w : t) :
  (exists extra,
      calls (snd (_run_ai_competition v difficulty ev w))
      = (calls w ++ Run.the_wait :: extra)%list
      /\ (extra = [] \/ extra = [Cancel engine_task]))
  /\ (let tasks :=
        set_iteration (set_reversed ev) [task_of our_attempt; task_of p2p_check] in
      let begun := Note.started (set_reversed ev) difficulty (p2p_jitter ev) in
      match wait wraps_coroutines [coroutine_of our_attempt; coroutine_of p2p_check]
              difficulty ev w with
      | (Ok (done, pending), w1) =>
          done <> []
          /\ (done ++ pending = tasks \/ pending ++ done = tasks)%list
          /\ forallb (is_done (finished ev)) done = true
          /\ existsb (is_done (finished ev)) pending = false
          /\ (mem (task_of our_attempt) pending = true -> 1 <= solving w1)
          /\ exists rest,
               AIAlgoManager.log_entries (manager w1)
               = (AIAlgoManager.log_entries (manager w) ++ begun ++ rest)%list
      | (Raise e, w1) =>
          e = CancelledError
          /\ 1 <= solving w1
          /\ exists rest,
               AIAlgoManager.log_entries (manager w1)
               = (AIAlgoManager.log_entries (manager w) ++ begun ++ rest)%list
      | (Suspended, _) => False
      end).
Proof.
  split.
  - rewrite race_calls.
    destruct (_ && _ && _ && _); eexists; rewrite <- ?app_assoc; (split; [reflexivity|]); auto.
  - intros tasks begun. rewrite race_wait. cbv zeta.
    set (m5 := if set_reversed ev then _ else _).
    set (late := firstn (solving w) (late_in_race ev)).
    set (w6 := with_solving _ _).
    set (w7 := if stop_in_race ev then stop_engine w6 else w6).
    assert (H5 : AIAlgoManager.log_entries m5
                 = (AIAlgoManager.log_entries (manager w) ++ begun)%list).
    { unfold m5, begun, Note.started.
      destruct (set_reversed ev);
        cbn [AIAlgoManager.solve_block_encryption_start _simulate_p2p_consensus_start snd
             AIAlgoManager.log_message AIAlgoManager.log_entries];
        now rewrite <- app_assoc. }
    assert (H6 : AIAlgoManager.log_entries (manager w6)
                 = (AIAlgoManager.log_entries (manager w) ++ begun
                    ++ map Note.proof_received late)%list).
    { unfold w6. cbn [manager with_solving with_manager].
      rewrite late_proofs_log, H5. now rewrite <- app_assoc. }
    assert (H7 : exists rest,
               AIAlgoManager.log_entries (manager w7)
               = (AIAlgoManager.log_entries (manager w) ++ begun ++ rest)%list).
    { unfold w7. destruct (stop_in_race ev); [|eexists; exact H6].
      unfold stop_engine. destruct (running w6); [|eexists; exact H6].
      exists (map Note.proof_received late
              ++ [ {| entry_message := [Lit "Async AI Engine received STOP command."];
                      entry_color := red |} ])%list.
      cbn [task with_running with_manager].
      destruct (task w6);
        cbn [manager with_cancel_pending record_call with_manager with_running
             AIAlgoManager.log_message AIAlgoManager.log_entries];
        rewrite H6; now rewrite <- !app_assoc. }
    assert (S7 : 1 <= solving w7).
    { assert (S6 : 1 <= solving w6).
      { unfold w6. cbn [solving with_solving].
        pose proof (firstn_le_length (solving w) (late_in_race ev)) as Hle.
        fold late in Hle. lia. }
      unfold w7. destruct (stop_in_race ev); [|exact S6].
      unfold stop_engine. destruct (running w6); [|exact S6].
      cbn [task with_running with_manager].
      destruct (task w6); exact S6. }
    clearbody w7 m5. clear w6 H5 H6.
    destruct (cancel_pending w7).
    + split; [reflexivity|]. split; [exact S7 | exact H7].
    + destruct H7 as (rest & H7). unfold tasks.
      destruct (set_reversed ev), (finished ev) as [[|?] | [|?] | [|?] [|?]];
        cbn [set_iteration rev filter is_done ending_of negb app forallb existsb mem
             handle_eqb operation_eqb orb andb];
        (split; [discriminate|]); (split; [auto|]); (split; [reflexivity|]);
        (split; [reflexivity|]); (split; [try discriminate; intros _; exact S7|]);
        cbn [manager with_solving with_manager
             AIAlgoManager.solve_block_encryption_finish snd
             AIAlgoManager.log_message AIAlgoManager.log_entries];
        rewrite H7; eexists; rewrite <- ?app_assoc; reflexivity.
Qed.

(** C4 as stated fails: the local solve is done first, the consensus check is
    handed back as pending, and the race returns without having asked for its
    cancellation. *)
Lemma loser_is_not_cancelled :
  fst (wait wraps_coroutines [coroutine_of our_attempt; coroutine_of p2p_check] 110
         (Run.events (solve_first returned) false) Run.started)
  = Ok ([task_of our_attempt], [task_of p2p_check])
  /\ calls (snd (_run_ai_competition wraps_coroutines 110
                   (Run.events (solve_first returned) false) Run.started))
     = [Run.the_wait].
Proof. split; reflexivity. Qed.

End RaceCalls.

(** ** The win gate *)

Section WinGate.
Import Asyncio AIAlgoEngine Ledger.

(** The proof of the local solve begins with a fixed prefix, so it is true
    in a condition. *)
Lemma proof_token_prefix (bits : N) (m : AIAlgoManager.t) :
  fst (AIAlgoManager.solve_block_encryption_finish bits m)
  = "AI_Solution_Proof_" ++ Py.format_X bits
  /\ Py.str_truthy (fst (AIAlgoManager.solve_block_encryption_finish bits m)) = true.
Proof. split; reflexivity. Qed.

(** With [running] false the loop body does not mint, whatever the race
    returned. *)
Lemma stopped_engine_does_not_mint (proof : Py.value) (difficulty : float)
    (ev : cycle_events) (w : t) :
  running w = false -> same w (snd (process_result proof difficulty ev w)).
Proof.
  intros Hoff. rewrite process_result_gate, Hoff, andb_false_r. repeat split.
Qed.

(** C10 (the code departs from the claim): up to Python 3.10, when the peer
    consensus is done first the race ends without [return], so it hands back
    [None], not the empty string. *)
Theorem loss_returns_none :
  fst (_run_ai_competition wraps_coroutines 110
         (Run.events (consensus_first returned) false) Run.started)
  = Ok Py.VNone.
Proof. reflexivity. Qed.

(** C8 (the code departs from the claim): up to Python 3.10, when an
    operation of the race raises and nobody stops the engine, the exception
    stays in the task that the wait made of the operation: the race hands
    back [None], and all it has added to the log are the entries of the two
    operations' first steps, in the order in which the wait created their
    tasks, then the proofs of the solves that ended meanwhile, that of this
    race's solve last if it returned. None of them is red: the handler that
    logs the error is not entered. *)
Theorem operation_error_is_not_logged (difficulty : float) (ev : cycle_events) (w : t)
    (op : operation) (msg : string) :
  ending_of (finished ev) op = Some (raised msg) ->
  stop_in_race ev = false ->
  cancel_pending w = false ->
  let added :=
    (Note.started (set_reversed ev) difficulty (p2p_jitter ev)
     ++ map Note.proof_received (firstn (solving w) (late_in_race ev))
     ++ match ending_of (finished ev) our_attempt with
        | Some returned => [Note.proof_received (proof_bits ev)]
        | _ => []
        end)%list in
  fst (_run_ai_competition wraps_coroutines difficulty ev w) = Ok Py.VNone
  /\ AIAlgoManager.log_entries
       (manager (snd (_run_ai_competition wraps_coroutines difficulty ev w)))
     = (AIAlgoManager.log_entries (manager w) ++ added)%list
  /\ ~ In (Note.competition_error msg) added
  /\ Forall (fun entry => entry_color entry <> red) added.
Proof.
  intros Hraised Hstop Hcp added.
  assert (Hcolors : Forall (fun entry => entry_color entry <> red) added).
  { unfold added, Note.started. apply Forall_app. split; [|apply Forall_app; split].
    - destruct (set_reversed ev); repeat constructor; discriminate.
    - apply Forall_forall. intros entry Hin. apply in_map_iff in Hin as (bits & <- & _).
      discriminate.
    - destruct (ending_of (finished ev) our_attempt) as [[|?]|];
        repeat constructor; discriminate. }
  assert (Hrace : _run_ai_competition wraps_coroutines difficulty ev w
                  = (Ok Py.VNone,
                     snd (wait wraps_coroutines
                            [coroutine_of our_attempt; coroutine_of p2p_check]
                            difficulty ev w))
                  /\ AIAlgoManager.log_entries
                       (manager (snd (wait wraps_coroutines
                                        [coroutine_of our_attempt; coroutine_of p2p_check]
                                        difficulty ev w)))
                     = (AIAlgoManager.log_entries (manager w) ++ added)%list).
  { unfold _run_ai_competition, try_except, bind at 1.
    rewrite race_wait. cbv zeta. rewrite Hstop.
    cbn [cancel_pending with_solving with_manager record_call]. rewrite Hcp.
    assert (H5 : AIAlgoManager.log_entries
                   (if set_reversed ev
                    then snd (AIAlgoManager.solve_block_encryption_start difficulty
                                (solve_jitter ev)
                                (snd (_simulate_p2p_consensus_start difficulty
                                        (p2p_jitter ev) (manager w))))
                    else snd (_simulate_p2p_consensus_start difficulty (p2p_jitter ev)
                                (snd (AIAlgoManager.solve_block_encryption_start
                                        difficulty (solve_jitter ev) (manager w)))))
                 = (AIAlgoManager.log_entries (manager w)
                    ++ Note.started (set_reversed ev) difficulty (p2p_jitter ev))%list).
    { unfold Note.started.
      destruct (set_reversed ev);
        cbn [AIAlgoManager.solve_block_encryption_start _simulate_p2p_consensus_start snd
             AIAlgoManager.log_message AIAlgoManager.log_entries];
        now rewrite <- app_assoc. }
    unfold added.
    destruct (set_reversed ev), (finished ev) as [[|?] | [|?] | [|?] [|?]];
      cbn [set_iteration rev filter is_done ending_of negb app mem existsb handle_eqb
           operation_eqb orb andb fst snd ret manager with_solving with_manager
           AIAlgoManager.solve_block_encryption_finish AIAlgoManager.log_message
           AIAlgoManager.log_entries] in *;
      (split; [reflexivity|]);
      rewrite late_proofs_log, H5, <- ?app_assoc, ?app_nil_r; reflexivity. }
  destruct Hrace as [Hrace Hlog]. rewrite Hrace. cbn [fst snd].
  split; [reflexivity|]. split; [exact Hlog|]. split; [|exact Hcolors].
  intros Hin. rewrite Forall_forall in Hcolors. now apply (Hcolors _ Hin).
Qed.

Lemma operation_error_is_not_logged_witness :
  fst (_run_ai_competition wraps_coroutines 110
         (Run.failing (solve_first (raised "boom")) true) Run.started)
  = Ok Py.VNone
  /\ AIAlgoManager.log_entries
       (manager (snd (_run_ai_competition wraps_coroutines 110
                        (Run.failing (solve_first (raised "boom")) true) Run.started)))
     = (AIAlgoManager.log_entries (manager Run.started)
        ++ [Note.consensus_started (110 / 150 + 2.0)%float; Note.solve_started 110])%list.
Proof.
  pose proof (operation_error_is_not_logged 110
                (Run.failing (solve_first (raised "boom")) true) Run.started
                our_attempt "boom" eq_refl eq_refl eq_refl) as (Hnone & Hlog & _).
  split; [exact Hnone | exact Hlog].
Defined.

End WinGate.

(** ** Difficulty and reward, numerically *)

Section Numbers.
Import Binary64.
Local Open Scope float_scope.

(** C2: for any stored difficulty (zero, negative, infinite or NaN
    included) and any swirl drawn in [-50.0, 50.0], the new difficulty is
    [max(base + delta, 50.0)], where [base] is the stored difficulty when it
    is above 0 and 100.0 otherwise: it is [50.0] when [base + delta] is below
    [50.0] and [base + delta] itself otherwise, so it is at least
    [base + delta] and never below 50.0. *)
Theorem dynamic_difficulty_floor (random_factor : float) (m : AIAlgoManager.t) :
  (- AIAlgoEngine.DIFFICULTY_SWIRL_RANGE <=? random_factor) = true ->
  (random_factor <=? AIAlgoEngine.DIFFICULTY_SWIRL_RANGE) = true ->
  let base :=
    if 0 <? AIAlgoManager.current_difficulty m
    then AIAlgoManager.current_difficulty m else 100.0 in
  AIAlgoEngine._calculate_dynamic_difficulty random_factor m
  = Py.max (base + random_factor) 50.0
  /\ (50.0 <=? AIAlgoEngine._calculate_dynamic_difficulty random_factor m) = true
  /\ (base + random_factor
      <=? AIAlgoEngine._calculate_dynamic_difficulty random_factor m) = true
  /\ (if base + random_factor <? 50.0
      then AIAlgoEngine._calculate_dynamic_difficulty random_factor m = 50.0
      else AIAlgoEngine._calculate_dynamic_difficulty random_factor m
           = base + random_factor).
Proof.
  intros Hlo Hhi base. split; [reflexivity|].
  split; [exact (difficulty_floor (AIAlgoManager.current_difficulty m) random_factor
                   Hlo Hhi)|].
  assert (Fd : finite random_factor)
    by (apply (finite_between (-50.0) random_factor 50.0); auto; reflexivity).
  assert (Hb : finite base \/ Prim2SF base = S754_infinity false).
  { unfold base. destruct (0 <? AIAlgoManager.current_difficulty m) eqn:Hp;
      [now apply positive_shape | left; reflexivity]. }
  exact (max_with_floor (base + random_factor) (add_not_nan base random_factor Hb Fd)).
Qed.

Lemma dynamic_difficulty_floor_witness :
  AIAlgoEngine._calculate_dynamic_difficulty 10.0 (AIAlgoManager.init 255 1234) = 110.0
  /\ (50.0 <=? AIAlgoEngine._calculate_dynamic_difficulty 10.0
                 (AIAlgoManager.init 255 1234)) = true.
Proof.
  pose proof (dynamic_difficulty_floor 10.0 (AIAlgoManager.init 255 1234) eq_refl eq_refl)
    as (_ & Hfloor & _ & Hvalue).
  split; [exact Hvalue | exact Hfloor].
Defined.

(** C7: the reward is [5.0 * (1 + luck)] for the luck drawn, whatever the
    difficulty; for a luck in [-0.15, 0.15] it lies in [4.25, 5.75], the
    bounds being [5.0 * 0.85] and [5.0 * 1.15]. *)
Theorem reward_within_bounds (winner_node_id : string) (difficulty difficulty' : float)
    (luck_modifier : float) (hash_bits : N) (m : AIAlgoManager.t) :
  (- AIAlgoManager.LUCK_FACTOR_MAX <=? luck_modifier) = true ->
  (luck_modifier <=? AIAlgoManager.LUCK_FACTOR_MAX) = true ->
  AIAlgoManager.final_reward luck_modifier = 5.0 * (1 + luck_modifier)
  /\ AIAlgoManager.balance
       (AIAlgoManager.distribute_reward winner_node_id difficulty luck_modifier hash_bits m)
     = AIAlgoManager.balance m + AIAlgoManager.final_reward luck_modifier
  /\ AIAlgoManager.balance
       (AIAlgoManager.distribute_reward winner_node_id difficulty luck_modifier hash_bits m)
     = AIAlgoManager.balance
         (AIAlgoManager.distribute_reward winner_node_id difficulty' luck_modifier hash_bits m)
  /\ (4.25 <=? AIAlgoManager.final_reward luck_modifier) = true
  /\ (AIAlgoManager.final_reward luck_modifier <=? 5.75) = true
  /\ 5.0 * 0.85 = 4.25
  /\ 5.0 * 1.15 = 5.75.
Proof.
  intros Hlo Hhi.
  destruct (reward_bounds luck_modifier Hlo Hhi) as [Hmin Hmax].
  repeat split; assumption.
Qed.

Lemma reward_within_bounds_witness :
  (4.25 <=? AIAlgoManager.final_reward 0.15) = true
  /\ (AIAlgoManager.final_reward 0.15 <=? 5.75) = true.
Proof.
  pose proof (reward_within_bounds "AIAlgoNode-1234" 110 60 0.15 12345
                (AIAlgoManager.init 255 1234) eq_refl eq_refl)
    as (_ & _ & _ & Hmin & Hmax & _).
  split; [exact Hmin | exact Hmax].
Defined.

End Numbers.

(** ** Starting and stopping *)

Section StartStop.
Import Asyncio AIAlgoEngine.

(** X1: [stop_engine] leaves a stopped engine exactly as it is (no entry, no
    cancel), on a running one it clears [running], appends the one STOP
    entry and requests the cancellation of the engine task when there is
    one; a second call changes nothing more. *)
Theorem stop_engine_idempotent (w : t) :
  running (stop_engine w) = false
  /\ stop_engine (stop_engine w) = stop_engine w
  /\ (if running w then
        AIAlgoManager.log_entries (manager (stop_engine w))
        = (AIAlgoManager.log_entries (manager w)
           ++ [ {| entry_message := [Lit "Async AI Engine received STOP command."];
                   entry_color := red |} ])%list
        /\ cancel_pending (stop_engine w) = (task w || cancel_pending w)%bool
        /\ calls (stop_engine w)
           = (calls w ++ (if task w then [Cancel engine_task] else []))%list
      else stop_engine w = w).
Proof.
  destruct w as [m run tk cp cs]. unfold stop_engine; cbn.
  destruct run; cbn; [|auto].
  destruct tk; cbn; repeat split; try reflexivity.
  now rewrite app_nil_r.
Qed.

(** X2: with a key loaded and the algorithm idle, [start_algorithm] returns
    [True] and sets [is_running]; started again it returns [True] and stays
    running; [stop_algorithm] then returns [True] and clears [is_running],
    and a further [stop_algorithm] returns [False] and changes nothing, not
    even the log. None of them touches the key or the ledger. *)
Theorem algorithm_start_stop (m : AIAlgoManager.t) :
  Py.str_truthy (AIAlgoManager.api_key m) = true ->
  AIAlgoManager.is_running m = false ->
  let started := AIAlgoManager.start_algorithm m in
  let again := AIAlgoManager.start_algorithm (snd started) in
  let stopped := AIAlgoManager.stop_algorithm (snd again) in
  (fst started = true /\ AIAlgoManager.is_running (snd started) = true)
  /\ (fst again = true /\ AIAlgoManager.is_running (snd again) = true)
  /\ (fst stopped = true /\ AIAlgoManager.is_running (snd stopped) = false)
  /\ AIAlgoManager.stop_algorithm (snd stopped) = (false, snd stopped)
  /\ AIAlgoManager.api_key (snd stopped) = AIAlgoManager.api_key m
  /\ AIAlgoManager.balance (snd stopped) = AIAlgoManager.balance m
  /\ AIAlgoManager.block_height (snd stopped) = AIAlgoManager.block_height m.
Proof.
  intros Hkey Hidle started again stopped.
  subst stopped again started. unfold AIAlgoManager.start_algorithm at 2 3 4 5 6 7 8.
  unfold AIAlgoManager.start_algorithm.
  rewrite Hkey, Hidle. cbn. rewrite Hkey. cbn. repeat split.
Qed.

Lemma algorithm_start_stop_witness :
  AIAlgoManager.is_running
    (snd (AIAlgoManager.start_algorithm
            (snd (AIAlgoManager.set_api_key "sk-test" (AIAlgoManager.init 255 1234)))))
  = true.
Proof.
  exact (proj2 (proj1 (algorithm_start_stop
                         (snd (AIAlgoManager.set_api_key "sk-test" (AIAlgoManager.init 255 1234)))
                         eq_refl eq_refl))).
Defined.

(** X3: a freshly constructed manager cannot be started; once a key has
    been accepted, a later [set_api_key] with an empty key fails without
    dropping it, and [start_algorithm] still succeeds with that key. *)
Theorem failed_key_keeps_credential (key : string) (address_bytes : N) (node_number : Z)
    (m : AIAlgoManager.t) :
  Py.str_truthy key = true ->
  let loaded := snd (AIAlgoManager.set_api_key key m) in
  let retried := AIAlgoManager.set_api_key "" loaded in
  fst (AIAlgoManager.start_algorithm (AIAlgoManager.init address_bytes node_number)) = false
  /\ fst retried = false
  /\ AIAlgoManager.api_key (snd retried) = key
  /\ fst (AIAlgoManager.start_algorithm (snd retried)) = true
  /\ AIAlgoManager.is_running (snd (AIAlgoManager.start_algorithm (snd retried))) = true.
Proof.
  intros Hkey loaded retried. subst retried loaded.
  unfold AIAlgoManager.set_api_key at 2 4 6 8. rewrite Hkey. cbn.
  unfold AIAlgoManager.start_algorithm. cbn. rewrite Hkey. cbn.
  destruct (AIAlgoManager.is_running m) eqn:Hrun; cbn; rewrite ?Hrun; repeat split.
Qed.

Lemma failed_key_keeps_credential_witness :
  AIAlgoManager.api_key
    (snd (AIAlgoManager.set_api_key ""
            (snd (AIAlgoManager.set_api_key "sk-test" (AIAlgoManager.init 255 1234)))))
  = "sk-test".
Proof.
  exact (proj1 (proj2 (proj2 (failed_key_keeps_credential "sk-test" 255 1234
                                (AIAlgoManager.init 255 1234) eq_refl)))).
Defined.

End StartStop.

(** ** The scheduler over whole runs *)

Section Runs.
Import Asyncio AIAlgoEngine Ledger Schedule.

(** X4: whatever the release of asyncio, the draws, the order in which the
    operations finish and the stop requests, a run of [start_engine] leaves
    [block_height], [balance], [current_difficulty] and [last_block_hash] as
    they were: the loop never reaches [distribute_reward]. *)
Theorem start_engine_never_mints (v : version) (evs : list cycle_events) (w : t) :
  same w (snd (start_engine v evs w)).
Proof. apply keeps_start_engine. Qed.

Lemma log_grows_refl (w : t) : log_grows w w.
Proof. exists []. now rewrite app_nil_r. Qed.

Lemma log_grows_trans (w1 w2 w3 : t) : log_grows w1 w2 -> log_grows w2 w3 -> log_grows w1 w3.
Proof.
  intros [l1 H1] [l2 H2]. exists (l1 ++ l2)%list. now rewrite H2, H1, app_assoc.
Qed.

Lemma appends_ret {A} (a : A) : appends (ret a).
Proof. intros w. apply log_grows_refl. Qed.

Lemma appends_raise {A} (e : exn) : appends (@raise A e).
Proof. intros w. apply log_grows_refl. Qed.

Lemma appends_bind {A B} (c : M A) (k : A -> M B) :
  appends c -> (forall a, appends (k a)) -> appends (bind c k).
Proof.
  intros Hc Hk w. unfold bind. specialize (Hc w).
  destruct (c w) as [[a | e |] w1]; cbn [snd] in *; try exact Hc.
  eapply log_grows_trans; [exact Hc | apply Hk].
Qed.

Lemma appends_try_except {A} (body h1 : M A) (h2 : exn -> M A) :
  appends body -> appends h1 -> (forall e, appends (h2 e)) ->
  appends (try_except body h1 h2).
Proof.
  intros Hb H1 H2 w. unfold try_except. specialize (Hb w).
  destruct (body w) as [[a | e |] w1]; cbn [snd] in *; try exact Hb.
  destruct e; cbn; eapply log_grows_trans; try exact Hb; try apply H1; apply H2.
Qed.

Lemma appends_log (msg : message) (c : color) : appends (log msg c).
Proof. intros w. now exists [ {| entry_message := msg; entry_color := c |} ]. Qed.

Lemma appends_get_manager : appends get_manager.
Proof. intros w. apply log_grows_refl. Qed.

Lemma appends_get_running : appends get_running.
Proof. intros w. apply log_grows_refl. Qed.

Lemma appends_record_call (c : call) : appends (fun w => (Ok tt, record_call c w)).
Proof. intros w. exists []. cbn. now rewrite app_nil_r. Qed.

Lemma stop_engine_grows (w : t) : log_grows w (stop_engine w).
Proof.
  unfold stop_engine. destruct (running w); [|apply log_grows_refl].
  cbn [task with_manager with_running].
  destruct (task w); now eexists [ _ ].
Qed.

Lemma appends_suspend (stop : bool) : appends (suspend stop).
Proof.
  intros w. unfold suspend.
  destruct stop; [pose proof (stop_engine_grows w) as Hs | pose proof (log_grows_refl w) as Hs];
    match goal with |- context [cancel_pending ?x] => destruct (cancel_pending x) end;
    exact Hs.
Qed.

Lemma appends_on_manager (f : AIAlgoManager.t -> AIAlgoManager.t) :
  (forall m, exists added,
      AIAlgoManager.log_entries (f m) = (AIAlgoManager.log_entries m ++ added)%list) ->
  appends (on_manager f).
Proof. intros Hf w. apply (Hf (manager w)). Qed.

Lemma distribute_reward_grows (winner_node_id : string) (difficulty luck : float)
    (bits : N) (m : AIAlgoManager.t) :
  exists added,
    AIAlgoManager.log_entries
      (AIAlgoManager.distribute_reward winner_node_id difficulty luck bits m)
    = (AIAlgoManager.log_entries m ++ added)%list
    /\ List.length added = 6.
Proof.
  unfold AIAlgoManager.distribute_reward, AIAlgoManager._stamp_block_metadata.
  cbn [AIAlgoManager.log_message AIAlgoManager.log_entries AIAlgoManager.mint].
  eexists. repeat rewrite <- app_assoc. split; reflexivity.
Qed.

Lemma appends_set_solving (f : nat -> nat) :
  appends (fun w => (Ok tt, with_solving (f (solving w)) w)).
Proof. intros w. exists []. cbn. now rewrite app_nil_r. Qed.

Lemma appends_get_solving : appends get_solving.
Proof. intros w. apply log_grows_refl. Qed.

Lemma appends_orphans_end (earlier : nat) (late : list N) :
  appends (orphans_end earlier late).
Proof.
  intros w. exists (map Note.proof_received (firstn earlier late)).
  unfold orphans_end. cbn [snd manager with_solving with_manager].
  apply late_proofs_log.
Qed.

Lemma appends_operations_begin (difficulty : float) (ev : cycle_events)
    (tasks : list handle) :
  appends (operations_begin difficulty ev tasks).
Proof.
  induction tasks as [|h rest IH]; cbn [operations_begin]; [apply appends_ret|].
  apply appends_bind; [|intros _; exact IH].
  destruct h as [op | [|] |]; cbn [operation_begins]; try apply appends_ret.
  - apply appends_bind; [|intros _; apply (appends_set_solving S)].
    apply appends_on_manager. intros m. now eexists [ _ ].
  - apply appends_on_manager. intros m. now eexists [ _ ].
Qed.

Lemma appends_operations_end (ev : cycle_events) (tasks : list handle) :
  appends (operations_end ev tasks).
Proof.
  unfold operations_end.
  destruct (mem _ tasks); [|apply appends_ret].
  destruct (ending_of _ _) as [[|msg]|]; try apply appends_ret.
  - apply appends_bind; [|intros _; apply (appends_set_solving pred)].
    apply appends_on_manager. intros m. now eexists [ _ ].
  - apply (appends_set_solving pred).
Qed.

Lemma appends_wait (v : version) (fs : list handle) (difficulty : float) (ev : cycle_events) :
  appends (wait v fs difficulty ev).
Proof.
  assert (Hfor : forall tasks, appends (wait_for tasks difficulty ev)).
  { intros tasks. unfold wait_for.
    apply appends_bind; [apply appends_get_solving|]. intros earlier.
    apply appends_bind; [apply appends_operations_begin|]. intros _.
    apply appends_bind; [apply appends_orphans_end|]. intros _.
    apply appends_bind; [apply appends_suspend|]. intros _.
    apply appends_bind; [apply appends_operations_end|]. intros _.
    apply appends_ret. }
  unfold wait. apply appends_bind; [apply appends_record_call|]. intros _.
  destruct v; [apply Hfor|].
  destruct (existsb iscoroutine fs); [apply appends_raise | apply Hfor].
Qed.

Lemma appends_result (h : handle) (ev : cycle_events) : appends (result h ev).
Proof.
  unfold result. destruct h as [op | op |]; try apply appends_raise.
  destruct (ending_of _ _) as [[|msg]|], op; try apply appends_raise; apply appends_ret.
Qed.

Lemma appends_race (v : version) (difficulty : float) (ev : cycle_events) :
  appends (_run_ai_competition v difficulty ev).
Proof.
  unfold _run_ai_competition. apply appends_try_except.
  - apply appends_bind; [apply appends_wait|]. intros dp.
    destruct (mem _ (fst dp)).
    + apply appends_bind; [apply appends_log | intros _; apply appends_result].
    + destruct (mem _ (fst dp)); [|apply appends_ret].
      apply appends_bind; [apply appends_log | intros _; apply appends_ret].
  - apply appends_bind; [apply appends_log | intros _; apply appends_ret].
  - intros e. apply appends_bind; [apply appends_log | intros _; apply appends_ret].
Qed.

Lemma appends_cycle (v : version) (ev : cycle_events) : appends (cycle v ev).
Proof.
  unfold cycle. apply appends_bind.
  - unfold cycle_body.
    apply appends_bind; [apply appends_get_manager|]. intros m.
    apply appends_bind.
    { apply appends_on_manager. intros m0. exists []. now rewrite app_nil_r. }
    intros _. apply appends_bind; [apply appends_get_manager|]. intros m'.
    apply appends_bind; [apply appends_log|]. intros _.
    apply appends_bind; [apply appends_log|]. intros _.
    apply appends_bind; [apply appends_race|]. intros r.
    apply appends_bind; [|intros _; apply appends_log].
    unfold process_result. apply appends_bind; [apply appends_get_running|]. intros b.
    destruct (Py.truthy r && b); [|apply appends_log].
    apply appends_bind; [apply appends_get_manager|]. intros m1.
    apply appends_on_manager. intros m2.
    destruct (distribute_reward_grows (AIAlgoManager.node_id m1) (_calculate_dynamic_difficulty
                (swirl ev) m) (luck ev) (hash_bits ev) m2) as (added & Hadd & _).
    now exists added.
  - intros _. unfold sleep. apply appends_bind; [apply appends_record_call|]. intros _ w.
    destruct (stop_by_thread ev && negb (running w) && task w).
    + exists []. cbn. now rewrite app_nil_r.
    + revert w. apply appends_bind; [apply appends_get_solving|]. intros earlier.
      apply appends_bind; [apply appends_orphans_end|]. intros _.
      apply appends_suspend.
Qed.

Lemma appends_loop (v : version) (evs : list cycle_events) : appends (loop v evs).
Proof.
  induction evs as [|ev evs IH]; intros w; simpl.
  - destruct (running w); apply log_grows_refl.
  - destruct (running w); [|apply log_grows_refl].
    apply (appends_bind (cycle v ev) (fun _ => loop v evs)); [apply appends_cycle|].
    intros _. exact IH.
Qed.

(** X5: the log is append-only through the engine: after any run of
    [start_engine], and after [stop_engine], the entries that were in
    [log_entries] before are still there, in the same order, at its front. *)
Theorem engine_log_is_append_only (v : version) (evs : list cycle_events) (w : t) :
  log_grows w (snd (start_engine v evs w))
  /\ log_grows w (stop_engine w).
Proof.
  split; [|apply stop_engine_grows].
  unfold start_engine.
  apply (appends_bind (fun w0 => (Ok tt, with_running true w0))).
  - intros w0. exists []. cbn. now rewrite app_nil_r.
  - intros _. apply appends_bind; [apply appends_log|]. intros _. apply appends_loop.
Qed.

End Runs.

(** ** How long the scheduler runs *)

Section Liveness.
Import Asyncio AIAlgoEngine Ledger Schedule.

(** One pass of the loop during which nobody asks the engine to stop. *)
Lemma quiet_cycle (v : version) (ev : cycle_events) (w : t) :
  quiet ev -> running w = true -> cancel_pending w = false ->
  fst (cycle v ev w) = Ok tt
  /\ running (snd (cycle v ev w)) = true
  /\ cancel_pending (snd (cycle v ev w)) = false
  /\ calls (snd (cycle v ev w)) = (calls w ++ cycle_calls)%list.
Proof.
  destruct w as [m run tk cp cs sv], ev as [sw pe sj pj pb fin sr lu hb ss rv lr ls th].
  unfold quiet; cbn [stop_in_race stop_in_sleep running cancel_pending calls].
  intros [-> ->] -> ->.
  assert (Hcalls : (((cs ++ [Run.the_wait]) ++ [Sleep AIAlgoManager.BLOCK_TIME_SECONDS])
                    = cs ++ cycle_calls)%list).
  { unfold cycle_calls. now rewrite <- app_assoc. }
  destruct v, rv, th, fin as [[|?] | [|?] | [|?] [|?]];
    (split; [vm_compute; reflexivity|]);
    (split; [vm_compute; reflexivity|]);
    (split; [vm_compute; reflexivity|]);
    (etransitivity; [|exact Hcalls]); vm_compute; reflexivity.
Qed.

Lemma quiet_loop (v : version) (evs : list cycle_events) :
  forall w, Forall quiet evs -> running w = true -> cancel_pending w = false ->
  fst (loop v evs w) = Suspended
  /\ running (snd (loop v evs w)) = true
  /\ calls (snd (loop v evs w)) = (calls w ++ List.concat (map (fun _ => cycle_calls) evs))%list.
Proof.
  induction evs as [|ev evs IH]; intros w Hq Hrun Hcp.
  - simpl. rewrite Hrun. cbn. now rewrite app_nil_r.
  - rewrite (loop_running v ev evs w Hrun). unfold bind.
    inversion Hq as [|? ? Hev Hevs]; subst.
    destruct (quiet_cycle v ev w Hev Hrun Hcp) as (Hok & Hrun1 & Hcp1 & Hcalls1).
    destruct (cycle v ev w) as [[[] | e |] w1]; cbn [fst snd] in *; try discriminate.
    destruct (IH w1 Hevs Hrun1 Hcp1) as (Hs & Hr & Hc).
    split; [exact Hs|]. split; [exact Hr|].
    rewrite Hc, Hcalls1. cbn [map List.concat]. now rewrite app_assoc.
Qed.

(** X6: only a stop request ends the scheduler. While nobody calls
    [stop_engine()], [start_engine] neither returns nor raises, whatever the
    release of asyncio, the draws and the way the two operations end
    (including by an exception): it is still suspended after any number of
    cycles, [running] is true, and every cycle has made exactly one
    [asyncio.wait] and one [asyncio.sleep(BLOCK_TIME_SECONDS)] call. *)
Theorem scheduler_runs_until_stopped (v : version) (evs : list cycle_events) (w : t) :
  Forall quiet evs -> cancel_pending w = false ->
  fst (start_engine v evs w) = Suspended
  /\ running (snd (start_engine v evs w)) = true
  /\ calls (snd (start_engine v evs w))
     = (calls w ++ List.concat (map (fun _ => cycle_calls) evs))%list.
Proof.
  intros Hq Hcp.
  set (w0 := with_manager
               (AIAlgoManager.log_message [Lit "Async AI Engine started at: "; Now] teal
                  (manager w)) (with_running true w)).
  change (start_engine v evs w) with (loop v evs w0).
  exact (quiet_loop v evs w0 Hq eq_refl Hcp).
Qed.

Lemma scheduler_runs_until_stopped_witness :
  fst (start_engine rejects_coroutines
         [Run.events (solve_first returned) false;
          Run.events (both_done (raised "boom") returned) false] Run.node) = Suspended
  /\ running (snd (start_engine rejects_coroutines
         [Run.events (solve_first returned) false;
          Run.events (both_done (raised "boom") returned) false] Run.node)) = true
  /\ calls (snd (start_engine rejects_coroutines
         [Run.events (solve_first returned) false;
          Run.events (both_done (raised "boom") returned) false] Run.node))
     = (calls Run.node ++ List.concat (map (fun _ => cycle_calls)
         [Run.events (solve_first returned) false;
          Run.events (both_done (raised "boom") returned) false]))%list.
Proof.
  apply (scheduler_runs_until_stopped rejects_coroutines
           [Run.events (solve_first returned) false;
            Run.events (both_done (raised "boom") returned) false] Run.node).
  - repeat constructor.
  - reflexivity.
Defined.

(** The cycle during whose sleep the engine is stopped. *)
Lemma cycle_stopped_asleep (v : version) (ev : cycle_events) (w : t) :
  stop_in_race ev = false -> stop_in_sleep ev = true ->
  running w = true -> cancel_pending w = false ->
  fst (cycle v ev w) = (if task w then Raise CancelledError else Ok tt)
  /\ running (snd (cycle v ev w)) = false
  /\ cancel_pending (snd (cycle v ev w)) = false
  /\ calls (snd (cycle v ev w))
     = (calls w ++ cycle_calls ++ (if task w then [Cancel engine_task] else []))%list.
Proof.
  destruct w as [m run tk cp cs sv], ev as [sw pe sj pj pb fin sr lu hb ss rv lr ls th].
  cbn [stop_in_race stop_in_sleep running cancel_pending calls task].
  intros -> -> -> ->.
  assert (Hcancel : ((((cs ++ [Run.the_wait]) ++ [Sleep AIAlgoManager.BLOCK_TIME_SECONDS])
                      ++ [Cancel engine_task])
                     = cs ++ cycle_calls ++ [Cancel engine_task])%list).
  { unfold cycle_calls. now rewrite <- !app_assoc. }
  assert (Hnone : (((cs ++ [Run.the_wait]) ++ [Sleep AIAlgoManager.BLOCK_TIME_SECONDS])
                   = cs ++ cycle_calls ++ [])%list).
  { unfold cycle_calls. now rewrite <- !app_assoc. }
  destruct tk, v, rv, th, fin as [[|?] | [|?] | [|?] [|?]];
    (split; [vm_compute; reflexivity|]);
    (split; [vm_compute; reflexivity|]);
    (split; [vm_compute; reflexivity|]);
    (etransitivity; [|first [exact Hcancel | exact Hnone]]); vm_compute; reflexivity.
Qed.

(** X7: a stop request that arrives during the inter-block sleep ends the
    scheduler at that sleep, whatever events might follow. If the engine
    task had been stored in [self.task], [stop_engine()] cancels it and
    [CancelledError] leaves [start_engine] out of the sleep (nothing in the
    loop catches it there); if it had not, [start_engine] returns normally
    when the sleep ends. Either way [running] is false, no asyncio call is
    made after the sleep, and the ledger is as it was. *)
Theorem stop_during_sleep_ends_the_run (v : version) (ev : cycle_events)
    (evs : list cycle_events) (w : t) :
  stop_in_race ev = false -> stop_in_sleep ev = true -> cancel_pending w = false ->
  fst (start_engine v (ev :: evs) w) = (if task w then Raise CancelledError else Ok tt)
  /\ start_engine v (ev :: evs) w = start_engine v [ev] w
  /\ running (snd (start_engine v (ev :: evs) w)) = false
  /\ calls (snd (start_engine v (ev :: evs) w))
     = (calls w ++ cycle_calls ++ (if task w then [Cancel engine_task] else []))%list
  /\ same w (snd (start_engine v (ev :: evs) w)).
Proof.
  intros Hrace Hsleep Hcp.
  assert (Hloop : forall rest w0, running w0 = true -> cancel_pending w0 = false ->
            loop v (ev :: rest) w0 = cycle v ev w0).
  { intros rest w0 Hrun0 Hcp0. rewrite (loop_running v ev rest w0 Hrun0). unfold bind.
    destruct (cycle_stopped_asleep v ev w0 Hrace Hsleep Hrun0 Hcp0) as (Hout & Hrun1 & _).
    destruct (cycle v ev w0) as [[[] | e |] w1]; cbn [fst snd] in *; try reflexivity.
    now apply loop_stopped. }
  set (w0 := with_manager
               (AIAlgoManager.log_message [Lit "Async AI Engine started at: "; Now] teal
                  (manager w)) (with_running true w)).
  split; [|split; [|split; [|split]]]; try apply keeps_start_engine;
    change (start_engine v (ev :: evs) w) with (loop v (ev :: evs) w0);
    try change (start_engine v [ev] w) with (loop v [ev] w0);
    rewrite !Hloop by first [reflexivity | exact Hcp];
    try reflexivity;
    apply (cycle_stopped_asleep v ev w0 Hrace Hsleep eq_refl Hcp).
Qed.

Lemma stop_during_sleep_ends_the_run_witness :
  fst (start_engine wraps_coroutines
         [{| swirl := 10.0; peers := 17; solve_jitter := 1.5; p2p_jitter := 2.0;
             proof_bits := 255; finished := consensus_first returned;
             stop_in_race := false; luck := 0.1; hash_bits := 12345;
             stop_in_sleep := true; set_reversed := false; late_in_race := [];
             late_in_sleep := []; stop_by_thread := true |}] Run.node)
  = Raise CancelledError.
Proof.
  apply (stop_during_sleep_ends_the_run wraps_coroutines
           {| swirl := 10.0; peers := 17; solve_jitter := 1.5; p2p_jitter := 2.0;
              proof_bits := 255; finished := consensus_first returned;
              stop_in_race := false; luck := 0.1; hash_bits := 12345;
              stop_in_sleep := true; set_reversed := false; late_in_race := [];
              late_in_sleep := []; stop_by_thread := true |} [] Run.node); reflexivity.
Defined.

End Liveness.

(** ** Hexadecimal text read back *)

Section HexRoundTrip.
Import AIAlgoManager.

(** X8: the hash [distribute_reward] stores is always a literal that
    [int(..., 16)] accepts, so that the [int(self.last_block_hash, 16)] of
    [_stamp_block_metadata] cannot raise, and read back it is the number
    that was drawn: two mints store the same hash only if they drew the same
    bits. *)
Theorem block_hash_reads_back (winner_node_id other_id : string)
    (difficulty luck other_difficulty other_luck : float) (hash_bits other_bits : N)
    (m other : t) :
  PyInt.int16 (last_block_hash (distribute_reward winner_node_id difficulty luck hash_bits m))
  = Some hash_bits
  /\ (last_block_hash (distribute_reward winner_node_id difficulty luck hash_bits m)
      = last_block_hash (distribute_reward other_id other_difficulty other_luck other_bits other)
      <-> hash_bits = other_bits).
Proof.
  assert (Hread : forall w d l b m0,
            PyInt.int16 (last_block_hash (distribute_reward w d l b m0)) = Some b).
  { intros w d l b m0.
    change (last_block_hash (distribute_reward w d l b m0))
      with (String "0" (String "x" (Py.format_064x b)))%char.
    unfold PyInt.int16.
    pose proof (digits_value_zero_fill 64 false b) as Hv.
    pose proof (zero_fill_length_pos 64 false b) as Hlen.
    fold (Py.format_064x b) in Hv, Hlen.
    destruct (Py.format_064x b) as [|c s]; [simpl in Hlen; lia | exact Hv]. }
  split; [apply Hread|]. split.
  - intros Heq.
    pose proof (Hread winner_node_id difficulty luck hash_bits m) as H1.
    rewrite Heq, Hread in H1. now injection H1.
  - intros ->. reflexivity.
Qed.

(** X9: the wallet address of a node is [AIA-QTL-] followed by exactly 16
    upper-case hexadecimal digits, 24 characters in all, and those digits
    read back are the 8 random bytes: nodes that drew different bytes have
    different addresses. *)
Theorem wallet_address_format (random_bytes : N) (node_number : Z) :
  (random_bytes < 2 ^ 64)%N ->
  wallet_address (init random_bytes node_number) = _generate_unique_address random_bytes
  /\ exists digits,
       _generate_unique_address random_bytes = "AIA-QTL-" ++ digits
       /\ String.length digits = 16
       /\ Py.string_forallb PyInt.is_upper_hex digits = true
       /\ PyInt.int16 digits = Some random_bytes.
Proof.
  intros Hn. split; [reflexivity|].
  exists (Py.zero_fill 16 (Py.format_hex true random_bytes)).
  split; [reflexivity|].
  assert (Hlen : String.length (Py.zero_fill 16 (Py.format_hex true random_bytes)) = 16).
  { unfold Py.zero_fill, Py.format_hex. rewrite length_append, length_repeat.
    set (digits := Py.hex_digits (S (N.to_nat (N.log2 random_bytes))) true random_bytes
                     EmptyString).
    assert (H16 : (16 ^ N.of_nat 16 = 2 ^ 64)%N) by (vm_compute; reflexivity).
    assert (Hle : String.length digits <= String.length EmptyString + 16).
    { apply hex_digits_length_le; [lia | now rewrite H16]. }
    change (String.length EmptyString) with 0 in Hle. lia. }
  split; [exact Hlen|]. split.
  - unfold Py.zero_fill, Py.format_hex.
    rewrite forallb_append, forallb_repeat by reflexivity.
    now rewrite hex_digits_upper.
  - rewrite int16_upper_digits.
    + apply digits_value_zero_fill.
    + apply zero_fill_length_pos.
    + unfold Py.zero_fill, Py.format_hex.
      rewrite forallb_append, forallb_repeat by reflexivity.
      now rewrite hex_digits_upper.
Qed.

Lemma wallet_address_format_witness :
  (255 < 2 ^ 64)%N
  /\ exists digits,
       _generate_unique_address 255 = "AIA-QTL-" ++ digits
       /\ String.length digits = 16
       /\ Py.string_forallb PyInt.is_upper_hex digits = true
       /\ PyInt.int16 digits = Some 255%N.
Proof. split; [reflexivity | apply (wallet_address_format 255 1234); reflexivity]. Defined.

End HexRoundTrip.

(** ** Mints in sequence *)

Section Mints.
Import Binary64 AIAlgoManager.
Local Open Scope float_scope.

Lemma last_default {A} (a : A) (l : list A) (d d' : A) :
  last (a :: l) d = last (a :: l) d'.
Proof.
  revert a. induction l as [|b l IH]; intros a; [reflexivity|].
  change (last (b :: l) d = last (b :: l) d'). apply IH.
Qed.

(** X10: mints compose. After [distribute_reward] has been called once per
    draw, [block_height] has grown by the number of calls, six log entries
    have been added per call, the stored difficulty and hash are those of
    the last call (the earlier ones are overwritten, and with no call both
    are as before), and the credential, the running flag, the peer count,
    the address and the node id have not changed. *)
Theorem mints_compose (winner_node_id : string) (draws : list mint_draw) (m : t) :
  block_height (mints winner_node_id draws m)
  = (block_height m + Z.of_nat (List.length draws))%Z
  /\ List.length (log_entries (mints winner_node_id draws m))
     = (List.length (log_entries m) + 6 * List.length draws)%nat
  /\ current_difficulty (mints winner_node_id draws m)
     = last (map won_difficulty draws) (current_difficulty m)
  /\ last_block_hash (mints winner_node_id draws m)
     = last (map (fun d => new_block_hash (won_bits d)) draws) (last_block_hash m)
  /\ (api_key (mints winner_node_id draws m) = api_key m
      /\ is_running (mints winner_node_id draws m) = is_running m
      /\ peer_count (mints winner_node_id draws m) = peer_count m
      /\ wallet_address (mints winner_node_id draws m) = wallet_address m
      /\ node_id (mints winner_node_id draws m) = node_id m).
Proof.
  revert m. induction draws as [|d rest IH]; intros m.
  - cbn [mints List.length map last]. repeat split; lia.
  - cbn [mints]. specialize (IH (distribute_reward winner_node_id (won_difficulty d)
                                   (won_luck d) (won_bits d) m)).
    destruct IH as (Hh & Hl & Hd & Hhash & Ha & Hr & Hp & Hw & Hn).
    destruct (distribute_reward_grows winner_node_id (won_difficulty d) (won_luck d)
                (won_bits d) m) as (added & Hadd & Hlen).
    rewrite Hh, Hl, Hd, Hhash, Ha, Hr, Hp, Hw, Hn, Hadd, length_app, Hlen.
    change (block_height (distribute_reward winner_node_id (won_difficulty d) (won_luck d)
                            (won_bits d) m)) with (block_height m + 1)%Z.
    cbn [List.length map].
    split; [lia|]. split; [lia|]. split; [|split; [|repeat split]].
    + destruct rest as [|d' rest']; [reflexivity|]. cbn [map].
      change (last (won_difficulty d :: won_difficulty d' :: map won_difficulty rest')
                (current_difficulty m))
        with (last (won_difficulty d' :: map won_difficulty rest') (current_difficulty m)).
      apply last_default.
    + destruct rest as [|d' rest']; [reflexivity|]. cbn [map].
      change (last (new_block_hash (won_bits d) :: new_block_hash (won_bits d')
                      :: map (fun d0 => new_block_hash (won_bits d0)) rest')
                (last_block_hash m))
        with (last (new_block_hash (won_bits d')
                      :: map (fun d0 => new_block_hash (won_bits d0)) rest')
                (last_block_hash m)).
      apply last_default.
Qed.

(** Zero, of either sign, is at most what rounding a positive number gives. *)
Lemma zero_le_nearest (s : bool) (n e : Z) :
  (0 < n)%Z -> (e <= -1074)%Z -> SFleb (S754_zero s) (nearest false n e) = true.
Proof.
  intros Hn He. unfold nearest.
  set (c := fexp64 (Zdigits2 n + e)).
  assert (Hc : (0 <= c - e)%Z) by (unfold c, fexp64; lia).
  pose proof (rne_nonneg n (c - e) ltac:(lia) Hc) as Hq.
  unfold renorm. destruct (rne n (c - e) =? 2 ^ 53)%Z.
  - unfold pack. change (2 ^ 52)%Z with (Z.pos (2 ^ 52)).
    cbn iota. destruct (c + 1 <=? 971)%Z; reflexivity.
  - unfold pack. destruct (rne n (c - e)) as [|q|q]; [reflexivity | | lia].
    destruct (c <=? 971)%Z; reflexivity.
Qed.

(** Adding a positive number to a non-negative one gives at least as much,
    and a non-negative number. *)
Lemma add_positive (b r : float) :
  (0 <=? b) = true -> finite r -> (0 <? r) = true ->
  (b <=? b + r) = true /\ (0 <=? b + r) = true.
Proof.
  intros Hb Fr Hr.
  assert (F0 : finite 0) by reflexivity.
  apply (ltb_scaled_iff _ _ F0 Fr) in Hr. change (scaled (Prim2SF 0)) with 0%Z in Hr.
  assert (Hshape : finite b \/ Prim2SF b = S754_infinity false).
  { revert Hb. rewrite leb_spec. unfold SFleb, finite. change (Prim2SF 0) with (S754_zero false).
    destruct (Prim2SF b) as [? | [|] | | ? ? ?]; cbn [SFcompare SF_finite];
      try discriminate; auto. }
  destruct Hshape as [Fb | Hinf].
  - apply (leb_scaled_iff _ _ F0 Fb) in Hb. change (scaled (Prim2SF 0)) with 0%Z in Hb.
    rewrite !leb_spec, add_spec. unfold SF64add.
    rewrite SFadd_exact by (try apply Prim2SF_valid; try assumption; lia).
    change (Prim2SF 0) with (S754_zero false).
    split; [|apply zero_le_nearest; lia].
    destruct (Z.eq_dec (scaled (Prim2SF b)) 0) as [Hz | Hnz].
    + unfold finite in Fb. pose proof (Prim2SF_valid b) as Vb.
      destruct (Prim2SF b) as [s | s | | s mb eb]; try discriminate.
      * apply zero_le_nearest; cbn [scaled]; lia.
      * exfalso. apply valid_finite in Vb as (Heb & _). cbn [scaled] in Hz.
        assert (0 < Z.pos mb * 2 ^ (eb + 1074))%Z
          by (apply Z.mul_pos_pos; [lia | apply Z.pow_pos_nonneg; lia]).
        destruct s; cbn [cond_Zopp] in Hz; lia.
    + destruct (scaled_pos_shape (Prim2SF b) ltac:(lia)) as (mb & eb & Hshape).
      pose proof (Prim2SF_valid b) as Vb. rewrite Hshape in Vb |- *.
      rewrite <- (nearest_of_valid mb eb Vb) at 1.
      apply nearest_mono; [lia | | lia].
      rewrite <- Hshape. lia.
  - rewrite !leb_spec, add_spec. unfold SF64add. rewrite Hinf.
    unfold finite in Fr.
    destruct (Prim2SF r) as [? | ? | | ? ? ?]; try discriminate; split; reflexivity.
Qed.

(** X11: a mint never lowers the balance. For a balance that is not
    negative and a luck within [-LUCK_FACTOR_MAX, LUCK_FACTOR_MAX], the
    balance after [distribute_reward] is at least the balance before, and
    not negative; so is then the balance after any number of mints. *)
Theorem mints_keep_the_balance_nonnegative (winner_node_id : string)
    (draws : list mint_draw) (m : t) :
  (0 <=? balance m) = true -> Forall luck_in_range draws ->
  (0 <=? balance (mints winner_node_id draws m)) = true
  /\ (forall d, luck_in_range d ->
        (balance m <=? balance (distribute_reward winner_node_id (won_difficulty d)
                                  (won_luck d) (won_bits d) m)) = true).
Proof.
  intros Hb Hdraws.
  assert (Hstep : forall d m0, (0 <=? balance m0) = true -> luck_in_range d ->
            (balance m0 <=? balance (distribute_reward winner_node_id (won_difficulty d)
                                       (won_luck d) (won_bits d) m0)) = true
            /\ (0 <=? balance (distribute_reward winner_node_id (won_difficulty d)
                                 (won_luck d) (won_bits d) m0)) = true).
  { intros d m0 Hb0 [Hlo Hhi].
    destruct (reward_bounds (won_luck d) Hlo Hhi) as [Hmin Hmax].
    change (balance (distribute_reward winner_node_id (won_difficulty d) (won_luck d)
                       (won_bits d) m0))
      with (balance m0 + 5.0 * (1 + won_luck d)).
    assert (Fr : finite (5.0 * (1 + won_luck d)))
      by (apply (finite_between 4.25 _ 5.75); auto; reflexivity).
    apply add_positive; [exact Hb0 | exact Fr |].
    apply ltb_scaled_iff; [reflexivity | exact Fr |].
    apply (leb_scaled_iff 4.25 _) in Hmin; [|reflexivity | exact Fr].
    eapply Z.lt_le_trans; [|exact Hmin]. vm_compute. reflexivity. }
  split; [|intros d Hd; now apply Hstep].
  revert m Hb. induction Hdraws as [|d rest Hd _ IH]; intros m Hb; [exact Hb|].
  cbn [mints]. apply IH. now apply Hstep.
Qed.

Lemma mints_keep_the_balance_nonnegative_witness :
  (0 <=? balance (mints "AIAlgoNode-1234"
                    [ {| won_difficulty := 110; won_luck := 0.1; won_bits := 12345 |};
                      {| won_difficulty := 75; won_luck := -0.15; won_bits := 7 |} ]
                    (init 255 1234))) = true.
Proof.
  exact (proj1 (mints_keep_the_balance_nonnegative "AIAlgoNode-1234"
                  [ {| won_difficulty := 110; won_luck := 0.1; won_bits := 12345 |};
                    {| won_difficulty := 75; won_luck := -0.15; won_bits := 7 |} ]
                  (init 255 1234) eq_refl
                  (Forall_cons
                     {| won_difficulty := 110; won_luck := 0.1; won_bits := 12345 |}
                     (conj eq_refl eq_refl)
                     (Forall_cons
                        {| won_difficulty := 75; won_luck := -0.15; won_bits := 7 |}
                        (conj eq_refl eq_refl) (Forall_nil luck_in_range))))).
Defined.

(** X12: until the first mint the difficulty stays within [50, 150]. On a
    manager whose stored difficulty is not above zero, as [__init__] leaves
    it, and for a swirl within the range drawn, [_calculate_dynamic_difficulty]
    is [max(100.0 + swirl, 50.0)], at least 50.0 and at most 150.0; after a
    mint the stored difficulty is the base instead, whatever
    [BASE_DIFFICULTY] is. *)
Theorem difficulty_before_and_after_a_mint (random_factor : float) (m : t)
    (winner_node_id : string) (difficulty luck : float) (hash_bits : N) :
  (- AIAlgoEngine.DIFFICULTY_SWIRL_RANGE <=? random_factor) = true ->
  (random_factor <=? AIAlgoEngine.DIFFICULTY_SWIRL_RANGE) = true ->
  (0 <? current_difficulty m) = false ->
  (0 <? difficulty) = true ->
  AIAlgoEngine._calculate_dynamic_difficulty random_factor m
  = Py.max (AIAlgoEngine.BASE_DIFFICULTY + random_factor) 50.0
  /\ (50.0 <=? AIAlgoEngine._calculate_dynamic_difficulty random_factor m) = true
  /\ (AIAlgoEngine._calculate_dynamic_difficulty random_factor m <=? 150.0) = true
  /\ AIAlgoEngine._calculate_dynamic_difficulty random_factor
       (distribute_reward winner_node_id difficulty luck hash_bits m)
     = Py.max (difficulty + random_factor) 50.0.
Proof.
  intros Hlo Hhi Hfresh Hpos.
  assert (Hdef : AIAlgoEngine._calculate_dynamic_difficulty random_factor m
                 = Py.max (100.0 + random_factor) 50.0).
  { unfold AIAlgoEngine._calculate_dynamic_difficulty. now rewrite Hfresh. }
  split; [exact Hdef|]. split; [|split].
  - exact (difficulty_floor (current_difficulty m) random_factor Hlo Hhi).
  - rewrite Hdef. unfold Py.max.
    destruct (100.0 + random_factor <? 50.0); [reflexivity|].
    assert (Fd : finite random_factor)
      by (apply (finite_between (-50.0) random_factor 50.0); auto; reflexivity).
    change 150.0 with (100.0 + 50.0).
    apply add_le_mono_l; try assumption; try reflexivity.
    apply ltb_scaled_iff; [reflexivity | exact Fd |].
    apply (leb_scaled_iff (-50.0) random_factor) in Hlo; [|reflexivity | exact Fd].
    eapply Z.lt_le_trans; [|exact Hlo]. vm_compute. reflexivity.
  - unfold AIAlgoEngine._calculate_dynamic_difficulty.
    change (current_difficulty (distribute_reward winner_node_id difficulty luck hash_bits m))
      with difficulty.
    now rewrite Hpos.
Qed.

Lemma difficulty_before_and_after_a_mint_witness :
  (AIAlgoEngine._calculate_dynamic_difficulty 50.0 (init 255 1234) <=? 150.0) = true
  /\ AIAlgoEngine._calculate_dynamic_difficulty 50.0
       (distribute_reward "AIAlgoNode-1234" 150.0 0.1 12345 (init 255 1234))
     = Py.max (150.0 + 50.0) 50.0.
Proof.
  pose proof (difficulty_before_and_after_a_mint 50.0 (init 255 1234) "AIAlgoNode-1234"
                150.0 0.1 12345 eq_refl eq_refl eq_refl eq_refl) as (_ & _ & Hhi & Hnext).
  split; [exact Hhi | exact Hnext].
Defined.

End Mints.

(** ** The simulated latencies *)

Section Latency.
Import Binary64.
Local Open Scope Z_scope.

Lemma shr_1_keeps_nonneg (mrs : shr_record) : 0 <= shr_m mrs -> 0 <= shr_m (shr_1 mrs).
Proof.
  destruct mrs as [m r s]. cbn [shr_m]. intros Hm.
  rewrite (shr_1_nonneg m r s Hm). cbn [shr_m]. now apply Z.div2_nonneg.
Qed.

Lemma shr_keeps_nonneg (mrs : shr_record) (e n : Z) :
  0 <= shr_m mrs -> 0 <= shr_m (fst (shr mrs e n)).
Proof.
  intros Hm. destruct n as [|p|p]; cbn [shr fst]; try exact Hm.
  rewrite iter_pos_nat.
  induction (Pos.to_nat p) as [|k IH]; [exact Hm|].
  cbn [Nat.iter nat_rect]. now apply shr_1_keeps_nonneg.
Qed.

Lemma shr_record_of_loc_m (m : Z) (l : location) : shr_m (shr_record_of_loc m l) = m.
Proof. destruct l as [|[| |]]; reflexivity. Qed.

Lemma round_nearest_even_nonneg (m : Z) (l : location) :
  0 <= m -> 0 <= round_nearest_even m l.
Proof.
  intros Hm. destruct l as [|[| |]]; cbn [round_nearest_even]; try lia.
  destruct (Z.even m); lia.
Qed.

(** Rounding a non-negative mantissa gives zero, a positive number or plus
    infinity, never NaN. *)
Lemma binary_round_aux_nonneg (m e : Z) (l : location) :
  0 <= m -> SFleb (S754_zero false) (binary_round_aux prec emax false m e l) = true.
Proof.
  intros Hm. unfold binary_round_aux, shr_fexp.
  pose proof (shr_keeps_nonneg (shr_record_of_loc m l) e
                (fexp prec emax (Zdigits2 m + e) - e)) as H1.
  rewrite shr_record_of_loc_m in H1. specialize (H1 Hm).
  destruct (shr (shr_record_of_loc m l) e (fexp prec emax (Zdigits2 m + e) - e))
    as [mrs' e'].
  cbn [fst] in H1.
  set (q := round_nearest_even (shr_m mrs') (loc_of_shr_record mrs')).
  assert (Hq : 0 <= q) by (apply round_nearest_even_nonneg; exact H1).
  pose proof (shr_keeps_nonneg (shr_record_of_loc q loc_Exact) e'
                (fexp prec emax (Zdigits2 q + e') - e')) as H2.
  rewrite shr_record_of_loc_m in H2. specialize (H2 Hq).
  destruct (shr (shr_record_of_loc q loc_Exact) e' (fexp prec emax (Zdigits2 q + e') - e'))
    as [mrs'' e''].
  cbn [fst] in H2.
  destruct (shr_m mrs'') as [|p|p]; [reflexivity | | lia].
  destruct (e'' <=? emax - prec); reflexivity.
Qed.

Lemma SFdiv_core_nonneg (m1 m2 : positive) (e1 e2 : Z) :
  0 <= fst (fst (SFdiv_core_binary prec emax (Z.pos m1) e1 (Z.pos m2) e2)).
Proof.
  unfold SFdiv_core_binary.
  set (s := e1 - e2 - _).
  set (m' := match s with Z0 => Z.pos m1 | Zpos _ => Z.shiftl (Z.pos m1) s | Zneg _ => 0 end).
  assert (Hm' : 0 <= m').
  { unfold m'. destruct s; try lia. apply Z.shiftl_nonneg. lia. }
  pose proof (Z_div_mod m' (Z.pos m2) ltac:(lia)) as Hdiv.
  destruct (Z.div_eucl m' (Z.pos m2)) as [q r]. cbn [fst].
  destruct Hdiv as [Heq Hr]. nia.
Qed.

Local Open Scope float_scope.

(** A non-negative number divided by a positive finite one is not negative
    (and not NaN). *)
Lemma div_by_positive (x y : float) :
  (0 <=? x) = true -> (0 <? y) = true -> finite y -> (0 <=? x / y) = true.
Proof.
  rewrite !leb_spec, ltb_spec, div_spec. unfold SFleb, SFltb, finite, SF64div.
  change (Prim2SF 0) with (S754_zero false).
  destruct (Prim2SF x) as [sx | [|] | | [|] mx ex]; cbn [SFcompare]; try discriminate;
    destruct (Prim2SF y) as [sy | [|] | | [|] my ey]; cbn [SFcompare SF_finite];
    try discriminate; intros _ _ _; try reflexivity.
  cbn [SFdiv xorb].
  pose proof (SFdiv_core_nonneg mx my ex ey) as Hq.
  destruct (SFdiv_core_binary prec emax (Z.pos mx) ex (Z.pos my) ey) as [[mz ez] lz].
  cbn [fst] in Hq. apply (binary_round_aux_nonneg mz ez lz Hq).
Qed.

(** A sum is at least a positive lower bound of its second term when the
    first is not negative. *)
Lemma add_lower_bound (lo q j : float) :
  (0 <=? q) = true -> finite lo -> (0 <? lo) = true -> finite j -> (lo <=? j) = true ->
  (lo <=? q + j) = true.
Proof.
  intros Hq Flo Hlo Fj Hj.
  assert (F0 : finite 0) by reflexivity.
  apply (ltb_scaled_iff _ _ F0 Flo) in Hlo. change (scaled (Prim2SF 0)) with 0%Z in Hlo.
  apply (leb_scaled_iff _ _ Flo Fj) in Hj.
  assert (Hshape : finite q \/ Prim2SF q = S754_infinity false).
  { revert Hq. rewrite leb_spec. unfold SFleb, finite. change (Prim2SF 0) with (S754_zero false).
    destruct (Prim2SF q) as [? | [|] | | ? ? ?]; cbn [SFcompare SF_finite];
      try discriminate; auto. }
  destruct Hshape as [Fq | Hinf].
  - apply (leb_scaled_iff _ _ F0 Fq) in Hq. change (scaled (Prim2SF 0)) with 0%Z in Hq.
    rewrite leb_spec, add_spec. unfold SF64add.
    rewrite SFadd_exact by (try apply Prim2SF_valid; try assumption; lia).
    destruct (scaled_pos_shape (Prim2SF lo) Hlo) as (ml & el & Hshape).
    pose proof (Prim2SF_valid lo) as Vlo. rewrite Hshape in Vlo |- *.
    rewrite <- (nearest_of_valid ml el Vlo) at 1.
    apply nearest_mono; [lia | | ]; rewrite <- Hshape; lia.
  - rewrite leb_spec, add_spec. unfold SF64add, SFleb. rewrite Hinf.
    unfold finite in Fj, Flo.
    destruct (Prim2SF j) as [? | ? | | ? ? ?]; try discriminate; cbn [SFadd];
      destruct (Prim2SF lo) as [? | ? | | [|] ? ?]; try discriminate; reflexivity.
Qed.

(** X13: the simulated latencies are never negative, nor NaN. For a
    difficulty that is not negative, the local solve sleeps at least its
    jitter, so at least 1 second, and the peer consensus at least 0.5
    second: neither [asyncio.sleep] is given a negative delay. *)
Theorem latencies_are_positive (difficulty solve_jitter p2p_jitter : float)
    (m : AIAlgoManager.t) :
  (0 <=? difficulty) = true ->
  (1 <=? solve_jitter) = true -> (solve_jitter <=? 3) = true ->
  (0.5 <=? p2p_jitter) = true -> (p2p_jitter <=? 2.0) = true ->
  fst (AIAlgoManager.solve_block_encryption_start difficulty solve_jitter m)
  = difficulty / 100 + solve_jitter
  /\ fst (AIAlgoEngine._simulate_p2p_consensus_start difficulty p2p_jitter m)
     = difficulty / 150 + p2p_jitter
  /\ (1 <=? fst (AIAlgoManager.solve_block_encryption_start difficulty solve_jitter m)) = true
  /\ (0.5 <=? fst (AIAlgoEngine._simulate_p2p_consensus_start difficulty p2p_jitter m)) = true.
Proof.
  intros Hd Hs1 Hs3 Hp1 Hp2.
  split; [reflexivity|]. split; [reflexivity|].
  cbn [AIAlgoManager.solve_block_encryption_start
       AIAlgoEngine._simulate_p2p_consensus_start fst].
  split.
  - apply add_lower_bound; try reflexivity; try assumption.
    + apply div_by_positive; [exact Hd | reflexivity | reflexivity].
    + apply (finite_between 1 solve_jitter 3); auto; reflexivity.
  - apply add_lower_bound; try reflexivity; try assumption.
    + apply div_by_positive; [exact Hd | reflexivity | reflexivity].
    + apply (finite_between 0.5 p2p_jitter 2.0); auto; reflexivity.
Qed.

Lemma latencies_are_positive_witness :
  (1 <=? fst (AIAlgoManager.solve_block_encryption_start 110 1.5
                (AIAlgoManager.init 255 1234))) = true
  /\ (0.5 <=? fst (AIAlgoEngine._simulate_p2p_consensus_start 110 2.0
                    (AIAlgoManager.init 255 1234))) = true.
Proof.
  pose proof (latencies_are_positive 110 1.5 2.0 (AIAlgoManager.init 255 1234)
                eq_refl eq_refl eq_refl eq_refl eq_refl) as (_ & _ & Hsolve & Hp2p).
  split; [exact Hsolve | exact Hp2p].
Defined.

End Latency.
